(** * HeySalad vision client (rpi-vision-client/main.py)

    A shallow embedding of the capture / retry / submit / schedule logic of
    [RPiVisionClient] and of the start-up validation in [main], together
    with the properties the specification states about them.

    Conventions of the embedding.
    - Python values that flow through the client untyped (JSON data, camera
      identifiers, stream addresses) are [pyval]s; frames are byte lists.
    - Wall-clock time is a rational number of seconds.  Code between two
      blocking calls takes no time; [time.sleep d] takes exactly [d]
      (a handler that returns normally lets the sleep resume, PEP 475).
      [time_sleep] is time.sleep on the durations it accepts, at most
      2^63 - 1 ns; beyond that Python raises OverflowError, which the model
      does not follow.  Where a property says that a whole pass or run
      never raises, it says that the sleeps asked for are accepted
      ([sleeps_accepted]).
    - The outside world is a script [Env]: what the n-th [subprocess.run]
      and the n-th [requests.post] produce, how long they take, and which
      signals arrive while the n-th blocking call of each kind is pending,
      or between the construction of the client and run().
    - The [while self.running] loop is run for a given number of passes
      (fuel); the result tells whether the loop was left within them.
    - [main] is modelled from the arguments argparse returns; reading and
      parsing JSON is an input ([Host]).
    - A computation is a function [World -> Result A * World]; the world
      survives an exception, as Python object state does. *)

From Stdlib Require Import ZArith QArith Qminmax Lqa List String Ascii Bool Lia.
From Stdlib.Strings Require Byte.
Import ListNotations.

#[local] Set Warnings "-register-all".

Open Scope string_scope.
Open Scope Z_scope.

(** ** Data model *)

Definition bytes := list Byte.byte.

Inductive pyval :=
| PNone
| PBool (b : bool)
| PInt (z : Z)
| PFloat (q : Q)
| PStr (s : string)
| PList (l : list pyval)
| PDict (d : list (string * pyval)).

(** Python truthiness, as used by [or] and [not]. *)
Definition truthy (v : pyval) : bool :=
  match v with
  | PNone => false
  | PBool b => b
  | PInt z => negb (z =? 0)
  | PFloat q => negb (Qeq_bool q 0)
  | PStr s => negb (String.length s =? 0)%nat
  | PList l => negb (List.length l =? 0)%nat
  | PDict d => negb (List.length d =? 0)%nat
  end.

Inductive exn :=
| TimeoutExpired            (* subprocess.TimeoutExpired *)
| FileNotFoundError
| UnicodeDecodeError
| RequestsTimeout           (* requests.exceptions.Timeout *)
| RequestsConnectionError   (* requests.exceptions.ConnectionError *)
| JSONDecodeError
| KeyError (k : string)
| TypeError
| AttributeError
| ValueError
| OSError
| OtherException (what : string).

Inductive Result (A : Type) :=
| Ok (a : A)
| Raise (e : exn).
Arguments Ok {A} a.
Arguments Raise {A} e.

Inductive signum := SIGINT | SIGTERM.

Inductive level := DEBUG | INFO | WARNING | ERROR.

(** An f-string after interpolation: its literal parts and the values
    substituted into it, in order. *)
Inductive piece :=
| Lit (s : string)
| Arg (v : pyval)
| ArgExn (e : exn)
| ArgF1 (q : Q).             (* {x:.1f} *)
Definition message := list piece.

(** @dataclass CameraConfig *)
Record CameraConfig := {
  camera_id : pyval;
  rtsp_url : pyval;
  name : pyval                (* None by default *)
}.

(** @dataclass ClientConfig *)
Record ClientConfig := {
  api_url : string;
  api_key : string;
  cameras : list CameraConfig;
  interval : Q;
  max_retries : Z
}.

(** subprocess.CompletedProcess, as far as the client reads it. *)
Record CompletedProcess := {
  returncode : Z;
  stdout : bytes;
  stderr_decoded : option string   (* stderr.decode(); None: not valid UTF-8 *)
}.

(** requests.Response, as far as the client reads it. *)
Record Response := {
  status_code : Z;
  text : string;
  json : option pyval              (* response.json(); None: body is not JSON *)
}.

Inductive payload :=
| Frame (cam : pyval) (frame : bytes)      (* files={'frame': ...}, data={'camera_id': ...} *)
| Report (cam : pyval) (error : message).  (* json={'camera_id': ..., 'error': ...} *)

(** What the client does to the outside world. *)
Inductive event :=
| SubprocessRun (cmd : list pyval) (timeout : Z)
| Post (url : string) (headers : list (string * string)) (body : payload) (timeout : Z)
| Sleep (d : Q).

(** ** The outside world *)

(** What happens during one blocking call: what it returns or raises, how
    long it takes, and the signals that arrive while it is pending.  Their
    handler has run by the time the call returns; the model runs it at that
    moment, the latest at which the signals can have arrived. *)
Record Blocking (R : Type) := {
  outcome : R;
  took : Q;
  delivered : list signum
}.
Arguments outcome {R} _.
Arguments took {R} _.
Arguments delivered {R} _.

Record Env := {
  on_run : nat -> Blocking (Result CompletedProcess);
  on_post : nat -> Blocking (Result Response);
  on_sleep : nat -> list signum;
  (* signals that arrive after the handlers are installed in __init__ and
     before run() assigns self.running *)
  on_boot : list signum
}.

Record World := {
  now : Q;                          (* time.time() *)
  running : bool;                   (* self.running *)
  n_run : nat;                      (* subprocess.run calls so far *)
  n_post : nat;                     (* requests.post calls so far *)
  n_sleep : nat;                    (* time.sleep calls so far *)
  io : list event;                  (* oldest first *)
  logs : list (level * message);    (* oldest first *)
  handled : list (signum * Q)       (* handler invocations, with their time *)
}.

Definition emit (e : event) (w : World) : World :=
  {| now := now w; running := running w; n_run := n_run w; n_post := n_post w;
     n_sleep := n_sleep w; io := io w ++ [e]; logs := logs w; handled := handled w |}.

Definition record_log (l : level) (m : message) (w : World) : World :=
  {| now := now w; running := running w; n_run := n_run w; n_post := n_post w;
     n_sleep := n_sleep w; io := io w; logs := logs w ++ [(l, m)]; handled := handled w |}.

Definition advance (d : Q) (w : World) : World :=
  {| now := (now w + d)%Q; running := running w; n_run := n_run w; n_post := n_post w;
     n_sleep := n_sleep w; io := io w; logs := logs w; handled := handled w |}.

Definition assign_running (b : bool) (w : World) : World :=
  {| now := now w; running := b; n_run := n_run w; n_post := n_post w;
     n_sleep := n_sleep w; io := io w; logs := logs w; handled := handled w |}.

Definition count_run (w : World) : World :=
  {| now := now w; running := running w; n_run := S (n_run w); n_post := n_post w;
     n_sleep := n_sleep w; io := io w; logs := logs w; handled := handled w |}.

Definition count_post (w : World) : World :=
  {| now := now w; running := running w; n_run := n_run w; n_post := S (n_post w);
     n_sleep := n_sleep w; io := io w; logs := logs w; handled := handled w |}.

Definition count_sleep (w : World) : World :=
  {| now := now w; running := running w; n_run := n_run w; n_post := n_post w;
     n_sleep := S (n_sleep w); io := io w; logs := logs w; handled := handled w |}.

Definition note_signal (s : signum) (w : World) : World :=
  {| now := now w; running := running w; n_run := n_run w; n_post := n_post w;
     n_sleep := n_sleep w; io := io w; logs := logs w;
     handled := handled w ++ [(s, now w)] |}.

(** def _handle_shutdown(self, signum, frame) *)
Definition _handle_shutdown (s : signum) (w : World) : World :=
  assign_running false
    (record_log INFO [Lit "Shutdown signal received, stopping..."]
       (note_signal s w)).

(** Both SIGINT and SIGTERM are bound to [_handle_shutdown]
    (_setup_signal_handlers); the handler runs once per delivered signal. *)
Definition deliver (sigs : list signum) (w : World) : World :=
  fold_left (fun acc s => _handle_shutdown s acc) sigs w.

(** ** Python built-ins used by the client *)

Fixpoint assoc (k : string) (d : list (string * pyval)) : option pyval :=
  match d with
  | [] => None
  | (k', v) :: rest => if String.eqb k k' then Some v else assoc k rest
  end.

(** v.get(k, default) *)
Definition dict_get (v : pyval) (k : string) (default : pyval) : Result pyval :=
  match v with
  | PDict d => match assoc k d with Some x => Ok x | None => Ok default end
  | _ => Raise AttributeError
  end.

(** v[k] with a string key *)
Definition subscript (v : pyval) (k : string) : Result pyval :=
  match v with
  | PDict d => match assoc k d with Some x => Ok x | None => Raise (KeyError k) end
  | _ => Raise TypeError
  end.

(** len(v) *)
Definition py_len (v : pyval) : Result Z :=
  match v with
  | PStr s => Ok (Z.of_nat (String.length s))
  | PList l => Ok (Z.of_nat (List.length l))
  | PDict d => Ok (Z.of_nat (List.length d))
  | _ => Raise TypeError
  end.

Fixpoint chars (s : string) : list pyval :=
  match s with
  | EmptyString => []
  | String c rest => PStr (String c EmptyString) :: chars rest
  end.

(** The items [for x in v] visits. *)
Definition py_iter (v : pyval) : Result (list pyval) :=
  match v with
  | PList l => Ok l
  | PStr s => Ok (chars s)
  | PDict d => Ok (map (fun kv => PStr (fst kv)) d)
  | _ => Raise TypeError
  end.

(** max(0, x) *)
Definition max0 (x : Q) : Q :=
  match (0 ?= x)%Q with
  | Lt => x
  | _ => 0%Q
  end.

(** a < b *)
Definition Qltb (a b : Q) : bool :=
  match (a ?= b)%Q with
  | Lt => true
  | _ => false
  end.

(** The process as it starts at time [t0]. *)
Definition fresh_world (t0 : Q) : World :=
  {| now := t0; running := false; n_run := 0; n_post := 0; n_sleep := 0;
     io := []; logs := []; handled := [] |}.

(** ** The computation monad *)

Definition M (A : Type) := World -> Result A * World.

Definition ret {A} (a : A) : M A := fun w => (Ok a, w).

Definition bind {A B} (m : M A) (f : A -> M B) : M B :=
  fun w => match m w with
           | (Ok a, w') => f a w'
           | (Raise e, w') => (Raise e, w')
           end.

Definition raise {A} (e : exn) : M A := fun w => (Raise e, w).

(** try: m  except ... : h e   (the handler re-raises what it does not match) *)
Definition try_except {A} (m : M A) (h : exn -> M A) : M A :=
  fun w => match m w with
           | (Ok a, w') => (Ok a, w')
           | (Raise e, w') => h e w'
           end.

Declare Scope py_scope.
Delimit Scope py_scope with py.
Notation "x <- m ;; k" := (bind m (fun x => k))
  (at level 61, m at next level, right associativity) : py_scope.
Notation "m ;; k" := (bind m (fun _ => k))
  (at level 61, right associativity) : py_scope.
Open Scope py_scope.

Definition lift_result {A} (r : Result A) : M A := fun w => (r, w).

Definition log (l : level) (m : message) : M unit :=
  fun w => (Ok tt, record_log l m w).

Definition time_time : M Q := fun w => (Ok (now w), w).

Definition get_running : M bool := fun w => (Ok (running w), w).

Definition set_running (b : bool) : M unit := fun w => (Ok tt, assign_running b w).

Section Client.

Variable env : Env.
Variable config : ClientConfig.   (* self.config *)

(** subprocess.run(cmd, capture_output=True, timeout=t) *)
Definition subprocess_run (cmd : list pyval) (t : Z) : M CompletedProcess :=
  fun w =>
    let b := on_run env (n_run w) in
    (outcome b,
     deliver (delivered b) (advance (took b) (count_run (emit (SubprocessRun cmd t) w)))).

(** requests.post(url, headers=..., files=.../json=..., timeout=t) *)
Definition requests_post (url : string) (headers : list (string * string))
    (body : payload) (t : Z) : M Response :=
  fun w =>
    let b := on_post env (n_post w) in
    (outcome b,
     deliver (delivered b) (advance (took b) (count_post (emit (Post url headers body t) w)))).

(** time.sleep(d), for a duration time.sleep accepts: the call takes [d]
    and returns.  (For d above 2^63 - 1 ns, about 9.22e9 s, Python raises
    OverflowError instead; see [acceptedb].) *)
Definition time_sleep (d : Q) : M unit :=
  fun w =>
    (Ok tt,
     deliver (on_sleep env (n_sleep w)) (advance d (count_sleep (emit (Sleep d) w)))).

Definition ffmpeg_cmd (url : pyval) : list pyval :=
  [PStr "ffmpeg"; PStr "-rtsp_transport"; PStr "tcp"; PStr "-i"; url;
   PStr "-frames:v"; PStr "1"; PStr "-f"; PStr "image2pipe";
   PStr "-vcodec"; PStr "mjpeg"; PStr "-q:v"; PStr "2"; PStr "-y"; PStr "pipe:1"].

(** bytes.decode() *)
Definition decode (s : option string) : M string :=
  match s with
  | Some t => ret t
  | None => raise UnicodeDecodeError
  end.

(** def capture_frame(self, rtsp_url) -> Optional[bytes] *)
Definition capture_frame (url : pyval) : M (option bytes) :=
  try_except
    (result <- subprocess_run (ffmpeg_cmd url) 10 ;;
     if negb (returncode result =? 0) then
       err <- decode (stderr_decoded result) ;;
       log WARNING [Lit "ffmpeg failed: "; Arg (PStr (substring 0 200 err))] ;;
       ret None
     else
       let frame_data := stdout result in
       if (List.length frame_data =? 0)%nat then
         log WARNING [Lit "ffmpeg returned empty frame"] ;;
         ret None
       else ret (Some frame_data))
    (fun e =>
       match e with
       | TimeoutExpired =>
           log WARNING [Lit "Frame capture timed out for "; Arg url] ;; ret None
       | FileNotFoundError =>
           log ERROR [Lit "ffmpeg not found. Please install ffmpeg."] ;; ret None
       | _ =>
           log ERROR [Lit "Frame capture error: "; ArgExn e] ;; ret None
       end).

(** range(n) *)
Definition range (n : Z) : list Z := map Z.of_nat (seq 0 (Z.to_nat n)).

(** The body of [for attempt in range(self.config.max_retries)]; [Some]
    is the early [return frame], [None] is the loop running to its end. *)
Fixpoint retry_loop (attempts : list Z) (url : pyval) : M (option bytes) :=
  match attempts with
  | [] => ret None
  | attempt :: rest =>
      frame <- capture_frame url ;;
      match frame with
      | Some f => ret (Some f)
      | None =>
          (if attempt <? max_retries config - 1 then
             let backoff := 2 ^ attempt in
             log INFO [Lit "Retry "; Arg (PInt (attempt + 1)); Lit "/";
                       Arg (PInt (max_retries config)); Lit " in ";
                       Arg (PInt backoff); Lit "s..."] ;;
             time_sleep (inject_Z backoff)
           else ret tt) ;;
          retry_loop rest url
      end
  end.

(** def capture_frame_with_retry(self, rtsp_url) -> Optional[bytes] *)
Definition capture_frame_with_retry (url : pyval) : M (option bytes) :=
  r <- retry_loop (range (max_retries config)) url ;;
  match r with
  | Some f => ret (Some f)
  | None =>
      log ERROR [Lit "Failed to capture frame after ";
                 Arg (PInt (max_retries config)); Lit " attempts"] ;;
      ret None
  end.

(** response.json() *)
Definition response_json (r : Response) : M pyval :=
  match json r with
  | Some v => ret v
  | None => raise JSONDecodeError
  end.

(** def send_frame(self, camera_id, frame) -> Optional[dict] *)
Definition send_frame (cam : pyval) (frame : bytes) : M (option pyval) :=
  let url := api_url config ++ "/api/vision/detect" in
  let headers := [("X-API-Key", api_key config)] in
  try_except
    (response <- requests_post url headers (Frame cam frame) 30 ;;
     if status_code response =? 401 then
       log ERROR [Lit "Authentication failed. Check your API key."] ;;
       ret None
     else if status_code response =? 404 then
       log ERROR [Lit "Camera "; Arg cam; Lit " not registered in the system."] ;;
       ret None
     else if negb (status_code response =? 200) then
       log WARNING [Lit "API error "; Arg (PInt (status_code response)); Lit ": ";
                    Arg (PStr (substring 0 200 (text response)))] ;;
       ret None
     else
       result <- response_json response ;;
       objects <- lift_result (dict_get result "objects" (PList [])) ;;
       count <- lift_result (py_len objects) ;;
       ms <- lift_result (dict_get result "processing_time_ms" (PInt 0)) ;;
       log INFO [Lit "Detection complete: "; Arg (PInt count); Lit " objects ";
                 Lit "in "; Arg ms; Lit "ms"] ;;
       ret (Some result))
    (fun e =>
       match e with
       | RequestsTimeout =>
           log WARNING [Lit "API request timed out"] ;; ret None
       | RequestsConnectionError =>
           log WARNING [Lit "Failed to connect to API"] ;; ret None
       | _ =>
           log ERROR [Lit "API request error: "; ArgExn e] ;; ret None
       end).

(** def report_error(self, camera_id, error_message) *)
Definition report_error (cam : pyval) (error_message : message) : M unit :=
  let url := api_url config ++ "/api/vision/health/report" in
  let headers := [("X-API-Key", api_key config); ("Content-Type", "application/json")] in
  try_except
    (response <- requests_post url headers (Report cam error_message) 10 ;;
     if negb (status_code response =? 200) then
       log WARNING [Lit "Failed to report error: "; Arg (PInt (status_code response))]
     else ret tt)
    (fun e => log WARNING [Lit "Could not report error to health endpoint: "; ArgExn e]).

(** def process_camera(self, camera) *)
Definition process_camera (camera : CameraConfig) : M unit :=
  let camera_name := if truthy (name camera) then name camera else camera_id camera in
  log DEBUG [Lit "Processing camera: "; Arg camera_name] ;;
  frame <- capture_frame_with_retry (rtsp_url camera) ;;
  match frame with
  | None =>
      let error_msg := [Lit "Failed to capture frame from "; Arg (rtsp_url camera)] in
      log WARNING error_msg ;;
      report_error (camera_id camera) error_msg
  | Some f =>
      log INFO [Lit "Captured frame from "; Arg camera_name; Lit ": ";
                Arg (PInt (Z.of_nat (List.length f))); Lit " bytes"] ;;
      result <- send_frame (camera_id camera) f ;;
      match result with
      | None => log WARNING [Lit "Detection failed for camera "; Arg camera_name]
      | Some _ => ret tt
      end
  end.

(** for camera in self.config.cameras: if not self.running: break; ... *)
Fixpoint for_cameras (cs : list CameraConfig) : M unit :=
  match cs with
  | [] => ret tt
  | camera :: rest =>
      r <- get_running ;;
      if negb r then ret tt
      else process_camera camera ;; for_cameras rest
  end.

(** The tail of one pass of the while loop, after the for loop. *)
Definition finish_cycle (cycle_start : Q) : M unit :=
  t <- time_time ;;
  let elapsed := (t - cycle_start)%Q in
  let sleep_time := max0 (interval config - elapsed) in
  r <- get_running ;;
  if Qltb 0 sleep_time && r then
    log DEBUG [Lit "Sleeping for "; ArgF1 sleep_time; Lit "s"] ;;
    time_sleep sleep_time
  else ret tt.

(** One pass of [while self.running]. *)
Definition cycle : M unit :=
  cycle_start <- time_time ;;
  for_cameras (cameras config) ;;
  finish_cycle cycle_start.

(** [while self.running: ...], for at most [fuel] passes.  The result says
    whether the loop was left ([true]) or is still going ([false]). *)
Fixpoint while_running (fuel : nat) : M bool :=
  match fuel with
  | O => ret false
  | S k =>
      r <- get_running ;;
      if r then cycle ;; while_running k
      else ret true
  end.

(** def run(self) *)
Definition run (fuel : nat) : M bool :=
  log INFO [Lit "Starting vision client with ";
            Arg (PInt (Z.of_nat (List.length (cameras config)))); Lit " camera(s)"] ;;
  log INFO [Lit "Detection interval: "; Arg (PFloat (interval config)); Lit "s"] ;;
  log INFO [Lit "API URL: "; Arg (PStr (api_url config))] ;;
  set_running true ;;
  left <- while_running fuel ;;
  if left then log INFO [Lit "Vision client stopped"] ;; ret true
  else ret false.

(** client = RPiVisionClient(config); client.run()
    [__init__] sets [running = False] and installs the handlers; signals may
    arrive from then on. *)
Definition client (w : World) (fuel : nat) : Result bool * World :=
  run fuel (deliver (on_boot env) (assign_running false w)).

End Client.

(** ** Start-up: camera loading and [main] *)

(** s.split(sep, 1) *)
Fixpoint split1 (sep : ascii) (s : string) : list string :=
  match s with
  | EmptyString => [EmptyString]
  | String c rest =>
      if Ascii.eqb c sep then [EmptyString; rest]
      else match split1 sep rest with
           | hd :: tl => String c hd :: tl
           | [] => [String c EmptyString]
           end
  end.

(** s.rstrip(c) *)
Fixpoint rstrip (c : ascii) (s : string) : string :=
  match s with
  | EmptyString => EmptyString
  | String a rest =>
      match rstrip c rest with
      | EmptyString => if Ascii.eqb a c then EmptyString else String a EmptyString
      | kept => String a kept
      end
  end.

(** c in s *)
Fixpoint contains (c : ascii) (s : string) : bool :=
  match s with
  | EmptyString => false
  | String a rest => Ascii.eqb a c || contains c rest
  end.

(** What argparse hands to [main]. *)
Record Args := {
  arg_api_url : option string;
  arg_api_key : option string;
  arg_config : option string;
  arg_cameras : option (list string);
  arg_interval : Q;
  arg_max_retries : Z;
  arg_verbose : bool
}.

(** The operating system at start-up: [json.load(open(path))] for every
    path, and [json.loads] of the CAMERAS variable when it is set. *)
Record Host := {
  json_file : string -> Result pyval;
  json_CAMERAS : option (Result pyval)
}.

(** truthiness of an optional string: [not args.x] is [negb] of it *)
Definition given (s : option string) : bool :=
  match s with
  | Some t => negb (String.length t =? 0)%nat
  | None => false
  end.

(** CameraConfig(camera_id=cam['camera_id'], rtsp_url=cam['rtsp_url'],
                 name=cam.get('name')) *)
Definition camera_of (cam : pyval) : Result CameraConfig :=
  match subscript cam "camera_id" with
  | Raise e => Raise e
  | Ok i =>
      match subscript cam "rtsp_url" with
      | Raise e => Raise e
      | Ok u =>
          match dict_get cam "name" PNone with
          | Raise e => Raise e
          | Ok n => Ok {| camera_id := i; rtsp_url := u; name := n |}
          end
      end
  end.

(** cameras = []; for cam in items: cameras.append(CameraConfig(...)) *)
Fixpoint collect (items : list pyval) (acc : list CameraConfig)
  : Result (list CameraConfig) :=
  match items with
  | [] => Ok acc
  | cam :: rest =>
      match camera_of cam with
      | Raise e => Raise e
      | Ok c => collect rest (acc ++ [c])
      end
  end.

(** def load_cameras_from_file(filepath) *)
Definition load_cameras_from_file (host : Host) (filepath : string)
  : Result (list CameraConfig) :=
  match json_file host filepath with
  | Raise e => Raise e
  | Ok data =>
      match dict_get data "cameras" (PList []) with
      | Raise e => Raise e
      | Ok cams =>
          match py_iter cams with
          | Raise e => Raise e
          | Ok items => collect items []
          end
      end
  end.

(** def load_cameras_from_env() *)
Definition load_cameras_from_env (host : Host) : Result (list CameraConfig) :=
  match match json_CAMERAS host with
        | Some r => r
        | None => Ok (PList [])       (* os.environ.get('CAMERAS', '[]') *)
        end with
  | Raise e => Raise e
  | Ok data =>
      match py_iter data with
      | Raise e => Raise e
      | Ok items => collect items []
      end
  end.

(** How [main] ends: [sys.exit(status)], or the scheduler is entered with
    the configuration built. *)
Inductive Started :=
| Exit (status : Z)
| Scheduler (c : ClientConfig).

(** for cam_str in args.cameras: camera_id, rtsp_url = cam_str.split(':', 1) *)
Fixpoint parse_cameras (specs : list string) (acc : list CameraConfig)
  : M (Z + list CameraConfig) :=
  match specs with
  | [] => ret (inr acc)
  | cam_str :: rest =>
      match split1 ":" cam_str with
      | [i; u] =>
          parse_cameras rest
            (acc ++ [{| camera_id := PStr i; rtsp_url := PStr u; name := PNone |}])
      | _ =>                               (* ValueError on unpacking *)
          log ERROR [Lit "Invalid camera format: "; Arg (PStr cam_str)] ;;
          log ERROR [Lit "Expected format: camera_id:rtsp_url"] ;;
          ret (inl 1)
      end
  end.

Definition nonempty {A} (l : option (list A)) : bool :=
  match l with
  | Some (_ :: _) => true
  | _ => false
  end.

(** def main(), from the validation of the arguments to the construction of
    the ClientConfig.  (--verbose only changes which log records are shown.) *)
Definition main (host : Host) (args : Args) : M Started :=
  if negb (given (arg_api_url args)) then
    log ERROR [Lit "API URL is required. Use --api-url or set API_URL env var."] ;;
    ret (Exit 1)
  else if negb (given (arg_api_key args)) then
    log ERROR [Lit "API key is required. Use --api-key or set API_KEY env var."] ;;
    ret (Exit 1)
  else
    loaded <-
      (if given (arg_config args) then
         let path := match arg_config args with Some p => p | None => "" end in
         try_except
           (cs <- lift_result (load_cameras_from_file host path) ;;
            log INFO [Lit "Loaded "; Arg (PInt (Z.of_nat (List.length cs)));
                      Lit " camera(s) from "; Arg (PStr path)] ;;
            ret (inr cs))
           (fun e =>
              log ERROR [Lit "Failed to load config file: "; ArgExn e] ;;
              ret (inl 1))
       else if nonempty (arg_cameras args) then
         parse_cameras (match arg_cameras args with Some l => l | None => [] end) []
       else
         cs <- lift_result (load_cameras_from_env host) ;;
         ret (inr cs)) ;;
    match loaded with
    | inl status => ret (Exit status)
    | inr [] =>
        log ERROR [Lit "No cameras configured. Use --camera, --config, or CAMERAS env var."] ;;
        ret (Exit 1)
    | inr cams =>
        ret (Scheduler
               {| api_url := rstrip "/" (match arg_api_url args with Some u => u | None => "" end);
                  api_key := match arg_api_key args with Some k => k | None => "" end;
                  cameras := cams;
                  interval := arg_interval args;
                  max_retries := arg_max_retries args |})
    end.



(** * Vocabulary of the properties *)

Open Scope list_scope.

Definition no_signal (sigs : list signum) : bool :=
  match sigs with
  | [] => true
  | _ :: _ => false
  end.

(** The frame a finished [subprocess.run] amounts to. *)
Definition acquired (o : Result CompletedProcess) : option bytes :=
  match o with
  | Ok cp =>
      if (returncode cp =? 0) && negb (List.length (stdout cp) =? 0)%nat
      then Some (stdout cp) else None
  | Raise _ => None
  end.

Definition capture (url : pyval) : event := SubprocessRun (ffmpeg_cmd url) 10.

(** Attempt number [i] (from 0) failing, with the sleep that follows it. *)
Definition failed_attempt (url : pyval) (i : nat) : list event :=
  [capture url; Sleep (inject_Z (2 ^ Z.of_nat i))].

Definition fails (env : Env) (n : nat) : Prop :=
  acquired (outcome (on_run env n)) = None.

(** The attempt numbers [a, a+1, ..., a+n-1], as [range] produces them. *)
Definition attempts_from (a n : nat) : list Z := map Z.of_nat (seq a n).

Definition is_capture (e : event) : bool :=
  match e with
  | SubprocessRun _ _ => true
  | _ => false
  end.

(** Number of capture-tool invocations in a trace. *)
Definition captures (evs : list event) : nat := List.length (filter is_capture evs).

(** The durations slept in a trace, in order. *)
Fixpoint sleeps (evs : list event) : list Q :=
  match evs with
  | [] => []
  | Sleep d :: rest => d :: sleeps rest
  | _ :: rest => sleeps rest
  end.

Definition is_post (e : event) : bool :=
  match e with
  | Post _ _ _ _ => true
  | _ => false
  end.

(** The HTTP requests of a trace, in order. *)
Definition posts (evs : list event) : list event := filter is_post evs.

Definition detect_request (cfg : ClientConfig) (cam : pyval) (frame : bytes) : event :=
  Post (api_url cfg ++ "/api/vision/detect")%string
       [("X-API-Key", api_key cfg)] (Frame cam frame) 30.

Definition health_request (cfg : ClientConfig) (cam : pyval) (error : message) : event :=
  Post (api_url cfg ++ "/api/vision/health/report")%string
       [("X-API-Key", api_key cfg); ("Content-Type", "application/json")]
       (Report cam error) 10.

(** The classes of failed submissions. *)
Inductive SubmissionError : Result Response -> Prop :=
| auth_rejected resp : status_code resp = 401 -> SubmissionError (Ok resp)
| source_unknown resp : status_code resp = 404 -> SubmissionError (Ok resp)
| other_status resp : status_code resp <> 200 -> SubmissionError (Ok resp)
| timed_out : SubmissionError (Raise RequestsTimeout)
| connection_failed : SubmissionError (Raise RequestsConnectionError).

(** No shutdown signal is ever delivered. *)
Definition quiet (env : Env) : Prop :=
  forall n, delivered (on_run env n) = [] /\ delivered (on_post env n) = [] /\
            on_sleep env n = [].

Definition camera_name (c : CameraConfig) : pyval :=
  if truthy (name c) then name c else camera_id c.

Definition capture_failure (c : CameraConfig) : message :=
  [Lit "Failed to capture frame from "; Arg (rtsp_url c)].

(** The world in which process_camera calls capture_frame_with_retry. *)
Definition entering (c : CameraConfig) (w : World) : World :=
  record_log DEBUG [Lit "Processing camera: "; Arg (camera_name c)] w.

Definition captured_log (c : CameraConfig) (f : bytes) : message :=
  [Lit "Captured frame from "; Arg (camera_name c); Lit ": ";
   Arg (PInt (Z.of_nat (List.length f))); Lit " bytes"].

(** Every camera of the list processed, one after the other. *)
Fixpoint process_all (env : Env) (cfg : ClientConfig) (cs : list CameraConfig) : M unit :=
  match cs with
  | [] => ret tt
  | c :: rest => process_camera env cfg c ;; process_all env cfg rest
  end.

Fixpoint total (ds : list Q) : Q :=
  match ds with
  | [] => 0
  | d :: rest => d + total rest
  end.


(** The world in which run() enters its loop. *)
Definition entering_loop (cfg : ClientConfig) (w : World) : World :=
  assign_running true
    (record_log INFO [Lit "API URL: "; Arg (PStr (api_url cfg))]
       (record_log INFO [Lit "Detection interval: "; Arg (PFloat (interval cfg)); Lit "s"]
          (record_log INFO
             [Lit "Starting vision client with ";
              Arg (PInt (Z.of_nat (List.length (cameras cfg)))); Lit " camera(s)"] w))).

(** The same outside world, without any signal. *)
Definition silenced (env : Env) : Env :=
  {| on_run := fun n => {| outcome := outcome (on_run env n); took := took (on_run env n);
                           delivered := [] |};
     on_post := fun n => {| outcome := outcome (on_post env n); took := took (on_post env n);
                            delivered := [] |};
     on_sleep := fun _ => [];
     on_boot := on_boot env |}.

(** Two worlds in which the same things were done at the same times. *)
Definition same_course (w w' : World) : Prop :=
  now w = now w' /\ n_run w = n_run w' /\ n_post w = n_post w' /\
  n_sleep w = n_sleep w' /\ io w = io w'.

Definition retry_log (cfg : ClientConfig) (attempt : Z) : message :=
  [Lit "Retry "; Arg (PInt (attempt + 1)); Lit "/"; Arg (PInt (max_retries cfg));
   Lit " in "; Arg (PInt (2 ^ attempt)); Lit "s..."].

(** The claim C2 as it is worded, for the run of the client that starts at
    time 0 and ends within [fuel] passes: the run ends at most 10 s after
    every shutdown signal it received.  (A signal is stamped with the time
    at which the blocking call it interrupts returns, the latest moment at
    which it can have arrived.) *)
Definition exits_within_10 (env : Env) (cfg : ClientConfig) (fuel : nat) : Prop :=
  let r := client env cfg (fresh_world 0) fuel in
  fst r = Ok true ->
  forall s t, In (s, t) (handled (snd r)) -> (now (snd r) - t <= 10)%Q.

(** A JSON camera entry that has both mandatory keys. *)
Definition well_formed_entry (v : pyval) : bool :=
  match v with
  | PDict d =>
      match assoc "camera_id" d, assoc "rtsp_url" d with
      | Some _, Some _ => true
      | _, _ => false
      end
  | _ => false
  end.




(** ** Vocabulary of the further properties *)

Definition no_handled (sigs : list (signum * Q)) : bool :=
  match sigs with
  | [] => true
  | _ :: _ => false
  end.

(** From [w] to [w']: the events added all satisfy [P], and the flag is what
    it was unless a signal handler ran in between. *)
Definition follows (P : event -> Prop) (w w' : World) : Prop :=
  (exists evs, io w' = io w ++ evs /\ Forall P evs) /\
  (exists sigs, handled w' = handled w ++ sigs /\
                running w' = running w && no_handled sigs).

Definition keeps {A} (P : event -> Prop) (m : M A) : Prop :=
  forall w, follows P w (snd (m w)).

(** The events a client configured with [cfg] may produce for the cameras
    [cs]: ffmpeg on a camera's address with a 10 s timeout, a detection
    request with a non-empty frame and a 30 s timeout, a health report with
    a 10 s timeout, and sleeps of positive length. *)
Definition allowed (cfg : ClientConfig) (cs : list CameraConfig) (e : event) : Prop :=
  (exists c, In c cs /\ e = capture (rtsp_url c)) \/
  (exists c f, In c cs /\ f <> [] /\ e = detect_request cfg (camera_id c) f) \/
  (exists c, In c cs /\ e = health_request cfg (camera_id c) (capture_failure c)) \/
  (exists d, (0 < d)%Q /\ e = Sleep d).

(** len(v) is defined *)
Definition sized (v : pyval) : bool :=
  match v with
  | PStr _ | PList _ | PDict _ => true
  | _ => false
  end.

(** The camera a request is about. *)
Definition post_camera (e : event) : option pyval :=
  match e with
  | Post _ _ (Frame cam _) _ => Some cam
  | Post _ _ (Report cam _) _ => Some cam
  | _ => None
  end.

(** The camera a well-formed JSON entry describes. *)
Definition entry_camera (v : pyval) : CameraConfig :=
  match v with
  | PDict d =>
      {| camera_id := match assoc "camera_id" d with Some x => x | None => PNone end;
         rtsp_url := match assoc "rtsp_url" d with Some x => x | None => PNone end;
         name := match assoc "name" d with Some x => x | None => PNone end |}
  | _ => {| camera_id := PNone; rtsp_url := PNone; name := PNone |}
  end.

(** The camera a --camera argument [id:url] describes. *)
Definition cli_camera (p : string * string) : CameraConfig :=
  {| camera_id := PStr (fst p); rtsp_url := PStr (snd p); name := PNone |}.

Definition cli_spec (p : string * string) : string :=
  (fst p ++ ":" ++ snd p)%string.

(** c * n *)
Fixpoint repeated (c : ascii) (n : nat) : string :=
  match n with
  | O => EmptyString
  | S k => String c (repeated c k)
  end.

(** What a finished submission amounts to for send_frame. *)
Definition detection (o : Result Response) : option pyval :=
  match o with
  | Ok resp =>
      if status_code resp =? 200 then
        match json resp with
        | Some (PDict d) =>
            if sized (match assoc "objects" d with Some x => x | None => PList [] end)
            then Some (PDict d) else None
        | _ => None
        end
      else None
  | Raise _ => None
  end.

Fixpoint ends_with (c : ascii) (s : string) : bool :=
  match s with
  | EmptyString => false
  | String a EmptyString => Ascii.eqb a c
  | String _ rest => ends_with c rest
  end.

(** The longest sleep time.sleep accepts: 2^63 - 1 ns, in seconds. *)
Definition sleep_limit : Q := 9223372036854775807 # 1000000000.

(** time.sleep(d) returns instead of raising OverflowError. *)
Definition acceptedb (d : Q) : bool := Qle_bool d sleep_limit.





(** * Sample configurations and outside worlds *)

Definition always_missing : Env :=
  {| on_run := fun _ => {| outcome := Raise FileNotFoundError; took := 0; delivered := [] |};
     on_post := fun _ => {| outcome := Raise RequestsConnectionError; took := 0; delivered := [] |};
     on_sleep := fun _ => [];
     on_boot := [] |}.

Definition one_camera (n : Z) : ClientConfig :=
  {| api_url := "http://api"; api_key := "k";
     cameras := [{| camera_id := PStr "cam1"; rtsp_url := PStr "rtsp://a"; name := PNone |}];
     interval := 2; max_retries := n |}.

Definition jpeg : bytes := [Byte.xff; Byte.xd8; Byte.xff; Byte.xd9].

(** The capture times out twice, then delivers a frame. *)
Definition third_time_lucky : Env :=
  {| on_run := fun n =>
       if (n <? 2)%nat
       then {| outcome := Raise TimeoutExpired; took := 10; delivered := [] |}
       else {| outcome := Ok {| returncode := 0; stdout := jpeg; stderr_decoded := Some "" |};
               took := 1; delivered := [] |};
     on_post := fun _ => {| outcome := Raise RequestsConnectionError; took := 0; delivered := [] |};
     on_sleep := fun _ => [];
     on_boot := [] |}.

Definition two_cameras : ClientConfig :=
  {| api_url := "http://api"; api_key := "k";
     cameras := [{| camera_id := PStr "A"; rtsp_url := PStr "rtsp://a"; name := PNone |};
                 {| camera_id := PStr "B"; rtsp_url := PStr "rtsp://b"; name := PStr "door" |}];
     interval := 2; max_retries := 1 |}.

Definition camA : CameraConfig :=
  {| camera_id := PStr "A"; rtsp_url := PStr "rtsp://a"; name := PNone |}.

Definition camB : CameraConfig :=
  {| camera_id := PStr "B"; rtsp_url := PStr "rtsp://b"; name := PStr "door" |}.

(** Source A always fails, source B always succeeds (they alternate). *)
Definition a_fails_b_works : Env :=
  {| on_run := fun n =>
       if Nat.even n
       then {| outcome := Ok {| returncode := 1; stdout := []; stderr_decoded := Some "refused" |};
               took := 1 # 2; delivered := [] |}
       else {| outcome := Ok {| returncode := 0; stdout := jpeg; stderr_decoded := Some "" |};
               took := 1 # 2; delivered := [] |};
     on_post := fun _ =>
       {| outcome := Ok {| status_code := 200; text := "{}"; json := Some (PDict []) |};
          took := 1 # 4; delivered := [] |};
     on_sleep := fun _ => [];
     on_boot := [] |}.

(** Every capture works; the API rejects the key. *)
Definition unauthorized : Env :=
  {| on_run := fun _ =>
       {| outcome := Ok {| returncode := 0; stdout := jpeg; stderr_decoded := Some "" |};
          took := 1 # 2; delivered := [] |};
     on_post := fun _ =>
       {| outcome := Ok {| status_code := 401; text := "unauthorized"; json := None |};
          took := 1 # 4; delivered := [] |};
     on_sleep := fun _ => [];
     on_boot := [] |}.


(** Captures take a quarter of a second, submissions are instantaneous. *)
Definition steady : Env :=
  {| on_run := fun _ =>
       {| outcome := Ok {| returncode := 0; stdout := jpeg; stderr_decoded := Some "" |};
          took := 1 # 4; delivered := [] |};
     on_post := fun _ =>
       {| outcome := Ok {| status_code := 200; text := "{}"; json := Some (PDict []) |};
          took := 0; delivered := [] |};
     on_sleep := fun _ => [];
     on_boot := [] |}.

(** SIGTERM arrives between the construction of the client and run(). *)
Definition early_sigterm : Env :=
  {| on_run := on_run steady; on_post := on_post steady;
     on_sleep := fun _ => []; on_boot := [SIGTERM] |}.

(** ffmpeg is not installed; SIGTERM arrives during the first backoff sleep. *)
Definition sigterm_in_first_backoff : Env :=
  {| on_run := fun _ => {| outcome := Raise FileNotFoundError; took := 0; delivered := [] |};
     on_post := fun _ => {| outcome := Raise RequestsConnectionError; took := 0; delivered := [] |};
     on_sleep := fun n => match n with O => [SIGTERM] | S _ => [] end;
     on_boot := [] |}.

Definition no_files : Host :=
  {| json_file := fun _ => Raise OSError; json_CAMERAS := None |}.


(** Captures and submissions work; SIGTERM arrives during the first sleep,
    which is then the sleep between two passes. *)
Definition sigterm_in_cycle_sleep : Env :=
  {| on_run := on_run steady; on_post := on_post steady;
     on_sleep := fun n => match n with O => [SIGTERM] | S _ => [] end;
     on_boot := [] |}.

Definition two_cli_cameras : Args :=
  {| arg_api_url := Some "https://api.example.com//"; arg_api_key := Some "YOUR_KEY";
     arg_config := None;
     arg_cameras := Some ["cam1:rtsp://192.168.1.100:554/stream"; "cam2:rtsp://10.0.0.2/live"];
     arg_interval := 2; arg_max_retries := 5; arg_verbose := false |}.

Definition config_file_args : Args :=
  {| arg_api_url := Some "https://api.example.com"; arg_api_key := Some "YOUR_KEY";
     arg_config := Some "cameras.json"; arg_cameras := Some ["cam2"];
     arg_interval := 2; arg_max_retries := 5; arg_verbose := false |}.

Definition door_entry : pyval :=
  PDict [("camera_id", PStr "door"); ("rtsp_url", PStr "rtsp://10.0.0.3/live");
         ("name", PStr "Front door")].

Definition yard_entry : pyval :=
  PDict [("rtsp_url", PStr "rtsp://10.0.0.4/live"); ("camera_id", PStr "yard")].

(** cameras.json holds two cameras; CAMERAS is not valid JSON. *)
Definition one_file : Host :=
  {| json_file := fun path =>
       if String.eqb path "cameras.json"
       then Ok (PDict [("cameras", PList [door_entry; yard_entry])])
       else Raise OSError;
     json_CAMERAS := Some (Raise JSONDecodeError) |}.


(** * Properties *)

Create Rewrite HintDb world.

(** ** Signal delivery *)

Lemma deliver_io sigs w : io (deliver sigs w) = io w.
Proof. revert w; induction sigs as [|s sigs IH]; intro w; simpl; [reflexivity|]. now rewrite IH. Qed.

Lemma deliver_n_run sigs w : n_run (deliver sigs w) = n_run w.
Proof. revert w; induction sigs as [|s sigs IH]; intro w; simpl; [reflexivity|]. now rewrite IH. Qed.

Lemma deliver_n_post sigs w : n_post (deliver sigs w) = n_post w.
Proof. revert w; induction sigs as [|s sigs IH]; intro w; simpl; [reflexivity|]. now rewrite IH. Qed.

Lemma deliver_n_sleep sigs w : n_sleep (deliver sigs w) = n_sleep w.
Proof. revert w; induction sigs as [|s sigs IH]; intro w; simpl; [reflexivity|]. now rewrite IH. Qed.

Lemma deliver_now sigs w : now (deliver sigs w) = now w.
Proof. revert w; induction sigs as [|s sigs IH]; intro w; simpl; [reflexivity|]. now rewrite IH. Qed.

Lemma deliver_stopped sigs w : running w = false -> running (deliver sigs w) = false.
Proof.
  revert w; induction sigs as [|s sigs IH]; intros w H; simpl; [exact H|].
  apply IH. reflexivity.
Qed.

Lemma deliver_running sigs w :
  running (deliver sigs w) = running w && no_signal sigs.
Proof.
  destruct sigs as [|s sigs]; simpl.
  - now rewrite andb_true_r.
  - rewrite andb_false_r. apply deliver_stopped. reflexivity.
Qed.

#[local] Hint Rewrite deliver_io deliver_n_run deliver_n_post deliver_n_sleep
  deliver_now deliver_running : world.

(** ** capture_frame *)

Lemma capture_frame_result env url w :
  fst (capture_frame env url w) = Ok (acquired (outcome (on_run env (n_run w)))).
Proof.
  unfold capture_frame, try_except, bind, subprocess_run, acquired.
  destruct (outcome (on_run env (n_run w))) as [cp|e]; simpl.
  - destruct (returncode cp =? 0); simpl.
    + destruct (List.length (stdout cp) =? 0)%nat; reflexivity.
    + destruct (stderr_decoded cp); reflexivity.
  - destruct e; reflexivity.
Qed.

Lemma capture_frame_world env url w :
  let b := on_run env (n_run w) in
  let w' := snd (capture_frame env url w) in
  io w' = io w ++ [SubprocessRun (ffmpeg_cmd url) 10] /\
  n_run w' = S (n_run w) /\ n_post w' = n_post w /\ n_sleep w' = n_sleep w /\
  now w' = (now w + took b)%Q /\
  running w' = running w && no_signal (delivered b).
Proof.
  unfold capture_frame, try_except, bind, subprocess_run.
  destruct (outcome (on_run env (n_run w))) as [cp|e]; simpl.
  - destruct (returncode cp =? 0); simpl.
    + destruct (List.length (stdout cp) =? 0)%nat; simpl;
        autorewrite with world; simpl; repeat split; reflexivity.
    + destruct (stderr_decoded cp); simpl;
        autorewrite with world; simpl; repeat split; reflexivity.
  - destruct e; simpl; autorewrite with world; simpl; repeat split; reflexivity.
Qed.

Lemma capture_frame_eq env url w :
  capture_frame env url w =
  (Ok (acquired (outcome (on_run env (n_run w)))), snd (capture_frame env url w)).
Proof.
  rewrite <- (capture_frame_result env url w). now destruct (capture_frame env url w).
Qed.

#[local] Arguments capture_frame : simpl never.

(** ** The retry loop *)

Lemma time_sleep_world env d w :
  let w' := snd (time_sleep env d w) in
  fst (time_sleep env d w) = Ok tt /\
  io w' = io w ++ [Sleep d] /\
  n_run w' = n_run w /\ n_post w' = n_post w /\ n_sleep w' = S (n_sleep w) /\
  now w' = (now w + d)%Q /\
  running w' = running w && no_signal (on_sleep env (n_sleep w)).
Proof.
  unfold time_sleep; simpl. autorewrite with world; simpl. repeat split; reflexivity.
Qed.

(** One failed attempt that is not the last: the loop goes on with the
    rest, one capture and one sleep later. *)
Lemma retry_loop_failed env cfg url a rest w :
  fails env (n_run w) ->
  Z.of_nat a < max_retries cfg - 1 ->
  exists w',
    retry_loop env cfg (Z.of_nat a :: rest) url w = retry_loop env cfg rest url w' /\
    io w' = io w ++ failed_attempt url a /\
    n_run w' = S (n_run w) /\ n_post w' = n_post w /\ n_sleep w' = S (n_sleep w) /\
    (running w = false -> running w' = false) /\
    (no_signal (on_sleep env (n_sleep w)) = false -> running w' = false).
Proof.
  intros Hf Ha.
  cbn [retry_loop]. unfold bind at 1.
  rewrite capture_frame_eq. unfold fails in Hf. rewrite Hf.
  destruct (capture_frame_world env url w) as (Hio & Hr & Hp & Hs & _ & Hrun).
  set (w1 := snd (capture_frame env url w)) in *.
  apply Z.ltb_lt in Ha. rewrite Ha.
  eexists. split.
  - unfold bind, log. cbn [time_sleep]. reflexivity.
  - cbn [io n_run n_post n_sleep running]. autorewrite with world. simpl.
    rewrite Hio, Hr, Hp, Hs, Hrun. unfold failed_attempt, capture.
    rewrite <- app_assoc. simpl.
    repeat split; try reflexivity.
    + intros ->. reflexivity.
    + intros ->. now rewrite andb_false_r.
Qed.

Lemma range_attempts n : range n = attempts_from 0 (Z.to_nat n).
Proof. reflexivity. Qed.

(** [k] failed attempts in a row, none of them the last one: the loop is
    where it would be had it started at attempt [a + k], with [k] captures
    and [k] sleeps behind it. *)
Lemma retry_loop_skip env cfg url :
  forall k a n w,
    (k < n)%nat ->
    Z.of_nat (a + n) = max_retries cfg ->
    (forall j, (j < k)%nat -> fails env (n_run w + j)) ->
    exists w',
      retry_loop env cfg (attempts_from a n) url w =
        retry_loop env cfg (attempts_from (a + k) (n - k)) url w' /\
      io w' = io w ++ flat_map (failed_attempt url) (seq a k) /\
      n_run w' = (n_run w + k)%nat /\ n_post w' = n_post w /\
      n_sleep w' = (n_sleep w + k)%nat /\
      (running w = false -> running w' = false) /\
      ((exists j, (j < k)%nat /\ no_signal (on_sleep env (n_sleep w + j)) = false) ->
       running w' = false).
Proof.
  induction k as [|k IH]; intros a n w Hk HN Hf.
  - exists w. rewrite Nat.add_0_r, Nat.sub_0_r, app_nil_r, !Nat.add_0_r.
    repeat split; auto. intros (j & Hj & _). lia.
  - destruct n as [|n]; [lia|].
    destruct (retry_loop_failed env cfg url a (attempts_from (S a) n) w)
      as (w1 & E1 & Hio1 & Hr1 & Hp1 & Hs1 & Hstop1 & Hsig1).
    { specialize (Hf 0%nat). rewrite Nat.add_0_r in Hf. apply Hf. lia. }
    { lia. }
    destruct (IH (S a) n w1) as (w2 & E2 & Hio2 & Hr2 & Hp2 & Hs2 & Hstop2 & Hsig2).
    { lia. }
    { rewrite <- HN. f_equal. lia. }
    { intros j Hj. rewrite Hr1. replace (S (n_run w) + j)%nat with (n_run w + S j)%nat by lia.
      apply Hf. lia. }
    exists w2. unfold attempts_from in *. cbn [seq map flat_map].
    rewrite E1, E2, Hio2, Hio1, Hr2, Hr1, Hp2, Hp1, Hs2, Hs1.
    replace (S a + k)%nat with (a + S k)%nat by lia.
    replace (S n - S k)%nat with (n - k)%nat by lia.
    rewrite <- app_assoc.
    repeat split; auto; try lia.
    intros (j & Hj & Hn). destruct j as [|j].
    + apply Hstop2, Hsig1. now rewrite Nat.add_0_r in Hn.
    + apply Hsig2. exists j. split; [lia|].
      rewrite Hs1. now replace (S (n_sleep w) + j)%nat with (n_sleep w + S j)%nat by lia.
Qed.

(** The last attempt failing: no sleep, the loop is over. *)
Lemma retry_loop_last_failed env cfg url a w :
  fails env (n_run w) ->
  max_retries cfg - 1 <= Z.of_nat a ->
  let r := retry_loop env cfg [Z.of_nat a] url w in
  fst r = Ok None /\
  io (snd r) = io w ++ [capture url] /\
  n_run (snd r) = S (n_run w) /\ n_post (snd r) = n_post w /\
  n_sleep (snd r) = n_sleep w /\
  (running w = false -> running (snd r) = false).
Proof.
  intros Hf Ha r.
  destruct (capture_frame_world env url w) as (Hio & Hr & Hp & Hs & _ & Hrun).
  assert (E : r = (Ok None, snd (capture_frame env url w))).
  { subst r. cbn [retry_loop]. unfold bind at 1.
    rewrite capture_frame_eq. unfold fails in Hf. rewrite Hf.
    apply Z.ltb_ge in Ha. rewrite Ha. reflexivity. }
  rewrite E. cbn [fst snd]. rewrite Hio, Hr, Hp, Hs, Hrun.
  repeat split; try reflexivity. now intros ->.
Qed.

(** An attempt that succeeds: the frame is returned at once. *)
Lemma retry_loop_success env cfg url a rest w f :
  acquired (outcome (on_run env (n_run w))) = Some f ->
  let r := retry_loop env cfg (a :: rest) url w in
  fst r = Ok (Some f) /\
  io (snd r) = io w ++ [capture url] /\
  n_run (snd r) = S (n_run w) /\ n_post (snd r) = n_post w /\
  n_sleep (snd r) = n_sleep w.
Proof.
  intros Hf r.
  destruct (capture_frame_world env url w) as (Hio & Hr & Hp & Hs & _ & Hrun).
  assert (E : r = (Ok (Some f), snd (capture_frame env url w))).
  { subst r. cbn [retry_loop]. unfold bind at 1.
    rewrite capture_frame_eq, Hf. reflexivity. }
  rewrite E. cbn [fst snd]. repeat split; assumption.
Qed.

(** How a result of the loop becomes the result of the method. *)
Lemma capture_frame_with_retry_of_loop env cfg url w :
  let l := retry_loop env cfg (range (max_retries cfg)) url w in
  let r := capture_frame_with_retry env cfg url w in
  fst r = fst l /\
  io (snd r) = io (snd l) /\ n_run (snd r) = n_run (snd l) /\
  n_post (snd r) = n_post (snd l) /\ n_sleep (snd r) = n_sleep (snd l) /\
  running (snd r) = running (snd l) /\ now (snd r) = now (snd l).
Proof.
  unfold capture_frame_with_retry, bind.
  destruct (retry_loop env cfg (range (max_retries cfg)) url w) as [[[f|]|e] w1];
    simpl; repeat split; reflexivity.
Qed.

(** ** Counting what a trace contains *)

Lemma captures_app a b : captures (a ++ b) = (captures a + captures b)%nat.
Proof. unfold captures. now rewrite filter_app, length_app. Qed.

Lemma sleeps_app a b : sleeps (a ++ b) = sleeps a ++ sleeps b.
Proof.
  induction a as [|e a IH]; simpl; [reflexivity|].
  destruct e; simpl; now rewrite IH.
Qed.

Lemma captures_failed url k a :
  captures (flat_map (failed_attempt url) (seq a k)) = k.
Proof.
  revert a; induction k as [|k IH]; intro a; simpl; [reflexivity|].
  change (captures (capture url :: Sleep (inject_Z (2 ^ Z.of_nat a))
                      :: flat_map (failed_attempt url) (seq (S a) k)) = S k).
  unfold captures in *. simpl. now rewrite IH.
Qed.

Lemma sleeps_failed url k a :
  sleeps (flat_map (failed_attempt url) (seq a k)) =
  map (fun i => inject_Z (2 ^ Z.of_nat i)) (seq a k).
Proof.
  revert a; induction k as [|k IH]; intro a; simpl; [reflexivity|].
  now rewrite IH.
Qed.

(** ** Claims on capture_frame_with_retry *)

(** All attempts failing: N captures with N-1 growing sleeps between them. *)
Lemma capture_frame_with_retry_exhausted env cfg url w :
  1 <= max_retries cfg ->
  (forall j, (j < Z.to_nat (max_retries cfg))%nat -> fails env (n_run w + j)) ->
  let N := Z.to_nat (max_retries cfg) in
  let r := capture_frame_with_retry env cfg url w in
  exists evs,
    fst r = Ok None /\
    io (snd r) = io w ++ evs /\
    evs = flat_map (failed_attempt url) (seq 0 (N - 1)) ++ [capture url] /\
    captures evs = N /\
    sleeps evs = map (fun i => inject_Z (2 ^ Z.of_nat i)) (seq 0 (N - 1)) /\
    n_run (snd r) = (n_run w + N)%nat /\
    n_sleep (snd r) = (n_sleep w + (N - 1))%nat.
Proof.
  intros HN Hf N r.
  destruct (capture_frame_with_retry_of_loop env cfg url w)
    as (Hres & Hio & Hr & _ & Hs & _).
  fold r in Hres, Hio, Hr, Hs.
  rewrite range_attempts in *. fold N in Hres, Hio, Hr, Hs.
  assert (HN1 : (1 <= N)%nat) by (subst N; lia).
  destruct (retry_loop_skip env cfg url (N - 1) 0 N w)
    as (w1 & E1 & Hio1 & Hr1 & _ & Hs1 & _).
  { lia. }
  { subst N. simpl. lia. }
  { intros j Hj. apply Hf. fold N. lia. }
  rewrite E1 in Hres, Hio, Hr, Hs.
  replace (N - (N - 1))%nat with 1%nat in * by lia.
  unfold attempts_from in Hres, Hio, Hr, Hs. cbn [seq map] in Hres, Hio, Hr, Hs.
  destruct (retry_loop_last_failed env cfg url (0 + (N - 1)) w1)
    as (Lres & Lio & Lr & _ & Ls & _).
  { rewrite Hr1. apply Hf. fold N. lia. }
  { subst N. lia. }
  exists (flat_map (failed_attempt url) (seq 0 (N - 1)) ++ [capture url]).
  rewrite Hres, Hio, Hr, Hs, Lres, Lio, Lr, Ls, Hio1, Hr1, Hs1.
  rewrite captures_app, sleeps_app, captures_failed, sleeps_failed, <- app_assoc.
  simpl. rewrite app_nil_r.
  repeat split; try reflexivity; unfold captures; simpl; lia.
Qed.

(** C1.  With max_retries = N >= 1 and an acquisition that fails at every
    attempt, capture_frame_with_retry runs the capture exactly N times,
    sleeps 2^i after the failed attempt number i for i = 0 .. N-2 and not
    after the last one, and returns None; the last thing it does is the
    N-th capture. *)
Theorem retry_exhausts_all_attempts env cfg url w :
  1 <= max_retries cfg ->
  (forall j, (j < Z.to_nat (max_retries cfg))%nat -> fails env (n_run w + j)) ->
  let N := Z.to_nat (max_retries cfg) in
  let r := capture_frame_with_retry env cfg url w in
  exists evs,
    fst r = Ok None /\
    io (snd r) = io w ++ evs /\
    evs = flat_map (failed_attempt url) (seq 0 (N - 1)) ++ [capture url] /\
    captures evs = N /\
    sleeps evs = map (fun i => inject_Z (2 ^ Z.of_nat i)) (seq 0 (N - 1)) /\
    n_run (snd r) = (n_run w + N)%nat /\
    n_sleep (snd r) = (n_sleep w + (N - 1))%nat.
Proof. exact (capture_frame_with_retry_exhausted env cfg url w). Qed.

Lemma retry_exhausts_all_attempts_witness :
  exists evs,
    fst (capture_frame_with_retry always_missing (one_camera 3) (PStr "rtsp://a")
           (fresh_world 0)) = Ok None /\
    evs = [capture (PStr "rtsp://a"); Sleep 1; capture (PStr "rtsp://a"); Sleep 2;
           capture (PStr "rtsp://a")] /\
    io (snd (capture_frame_with_retry always_missing (one_camera 3) (PStr "rtsp://a")
               (fresh_world 0))) = evs.
Proof.
  destruct (retry_exhausts_all_attempts always_missing (one_camera 3)
              (PStr "rtsp://a") (fresh_world 0))
    as (evs & Hres & Hio & Hevs & _).
  - simpl. lia.
  - intros j _. reflexivity.
  - exists evs. split; [exact Hres | split; [exact Hevs | exact Hio]].
Defined.

(** Success at attempt k: k captures, k-1 sleeps, the frame. *)
Lemma capture_frame_with_retry_succeeds env cfg url w k f :
  (1 <= k <= Z.to_nat (max_retries cfg))%nat ->
  (forall j, (j < k - 1)%nat -> fails env (n_run w + j)) ->
  acquired (outcome (on_run env (n_run w + (k - 1)))) = Some f ->
  let r := capture_frame_with_retry env cfg url w in
  exists evs,
    fst r = Ok (Some f) /\
    io (snd r) = io w ++ evs /\
    evs = flat_map (failed_attempt url) (seq 0 (k - 1)) ++ [capture url] /\
    captures evs = k /\
    sleeps evs = map (fun i => inject_Z (2 ^ Z.of_nat i)) (seq 0 (k - 1)) /\
    n_run (snd r) = (n_run w + k)%nat /\
    n_sleep (snd r) = (n_sleep w + (k - 1))%nat.
Proof.
  intros Hk Hf Hok r.
  destruct (capture_frame_with_retry_of_loop env cfg url w)
    as (Hres & Hio & Hr & _ & Hs & _).
  fold r in Hres, Hio, Hr, Hs.
  rewrite range_attempts in *.
  set (N := Z.to_nat (max_retries cfg)) in *.
  destruct (retry_loop_skip env cfg url (k - 1) 0 N w)
    as (w1 & E1 & Hio1 & Hr1 & _ & Hs1 & _).
  { lia. }
  { subst N. simpl. lia. }
  { exact Hf. }
  rewrite E1 in Hres, Hio, Hr, Hs.
  destruct (N - (k - 1))%nat as [|m] eqn:Em; [lia|].
  unfold attempts_from in Hres, Hio, Hr, Hs. cbn [seq map] in Hres, Hio, Hr, Hs.
  destruct (retry_loop_success env cfg url (Z.of_nat (0 + (k - 1)))
              (map Z.of_nat (seq (S (0 + (k - 1))) m)) w1 f)
    as (Lres & Lio & Lr & _ & Ls).
  { now rewrite Hr1. }
  exists (flat_map (failed_attempt url) (seq 0 (k - 1)) ++ [capture url]).
  rewrite Hres, Hio, Hr, Hs, Lres, Lio, Lr, Ls, Hio1, Hr1, Hs1.
  rewrite captures_app, sleeps_app, captures_failed, sleeps_failed, <- app_assoc.
  simpl. rewrite app_nil_r.
  repeat split; try reflexivity; unfold captures; simpl; lia.
Qed.

(** C4.  If the acquisition fails at attempts 1 .. k-1 and succeeds at
    attempt k (1 <= k <= N), capture_frame_with_retry runs the capture
    exactly k times and returns the frame; the successful capture is the
    last thing it does: no further attempt, no sleep after it. *)
Theorem retry_returns_first_success env cfg url w k f :
  (1 <= k <= Z.to_nat (max_retries cfg))%nat ->
  (forall j, (j < k - 1)%nat -> fails env (n_run w + j)) ->
  acquired (outcome (on_run env (n_run w + (k - 1)))) = Some f ->
  let r := capture_frame_with_retry env cfg url w in
  exists evs,
    fst r = Ok (Some f) /\
    io (snd r) = io w ++ evs /\
    evs = flat_map (failed_attempt url) (seq 0 (k - 1)) ++ [capture url] /\
    captures evs = k /\
    sleeps evs = map (fun i => inject_Z (2 ^ Z.of_nat i)) (seq 0 (k - 1)) /\
    n_run (snd r) = (n_run w + k)%nat /\
    n_sleep (snd r) = (n_sleep w + (k - 1))%nat.
Proof. exact (capture_frame_with_retry_succeeds env cfg url w k f). Qed.

Lemma retry_returns_first_success_witness :
  exists evs,
    fst (capture_frame_with_retry third_time_lucky (one_camera 5) (PStr "rtsp://a")
           (fresh_world 0)) = Ok (Some jpeg) /\
    evs = [capture (PStr "rtsp://a"); Sleep 1; capture (PStr "rtsp://a"); Sleep 2;
           capture (PStr "rtsp://a")] /\
    io (snd (capture_frame_with_retry third_time_lucky (one_camera 5) (PStr "rtsp://a")
               (fresh_world 0))) = evs.
Proof.
  destruct (retry_returns_first_success third_time_lucky (one_camera 5)
              (PStr "rtsp://a") (fresh_world 0) 3%nat jpeg)
    as (evs & Hres & Hio & Hevs & _).
  - simpl. lia.
  - intros j Hj. destruct j as [|[|j]]; [reflexivity|reflexivity|simpl in Hj; lia].
  - reflexivity.
  - exists evs. split; [exact Hres | split; [exact Hevs | exact Hio]].
Defined.

(** An empty range: nothing is attempted. *)
Lemma capture_frame_with_retry_empty env cfg url w :
  max_retries cfg <= 0 ->
  let r := capture_frame_with_retry env cfg url w in
  fst r = Ok None /\
  io (snd r) = io w /\
  n_run (snd r) = n_run w /\
  n_sleep (snd r) = n_sleep w /\
  now (snd r) = now w.
Proof.
  intros HN r.
  destruct (capture_frame_with_retry_of_loop env cfg url w)
    as (Hres & Hio & Hr & _ & Hs & _ & Hnow).
  fold r in Hres, Hio, Hr, Hs, Hnow.
  rewrite range_attempts in *.
  replace (Z.to_nat (max_retries cfg)) with 0%nat in * by lia.
  simpl in *. repeat split; assumption.
Qed.

(** C10.  With max_retries zero or negative, capture_frame_with_retry makes
    no attempt at all: capture_frame is not called, nothing is slept, no
    time passes, and None is returned. *)
Theorem retry_without_attempts env cfg url w :
  max_retries cfg <= 0 ->
  let r := capture_frame_with_retry env cfg url w in
  fst r = Ok None /\
  io (snd r) = io w /\
  n_run (snd r) = n_run w /\
  n_sleep (snd r) = n_sleep w /\
  now (snd r) = now w.
Proof. exact (capture_frame_with_retry_empty env cfg url w). Qed.

Lemma retry_without_attempts_witness :
  fst (capture_frame_with_retry third_time_lucky (one_camera (-2)) (PStr "rtsp://a")
         (fresh_world 0)) = Ok None /\
  io (snd (capture_frame_with_retry third_time_lucky (one_camera (-2)) (PStr "rtsp://a")
             (fresh_world 0))) = [].
Proof.
  destruct (retry_without_attempts third_time_lucky (one_camera (-2))
              (PStr "rtsp://a") (fresh_world 0))
    as (Hres & Hio & _).
  - simpl. lia.
  - split; [exact Hres | exact Hio].
Defined.

(** C9.  capture_frame never raises, whatever subprocess.run does; it never
    returns an empty byte string; and it returns None when the payload has
    length zero, when the tool is not installed, when the process reports
    failure, and when the process times out. *)
Theorem capture_frame_failures_are_none env url w :
  let o := outcome (on_run env (n_run w)) in
  let r := fst (capture_frame env url w) in
  (exists res, r = Ok res) /\
  (forall f, r = Ok (Some f) -> f <> []) /\
  (forall cp, o = Ok cp -> stdout cp = [] -> r = Ok None) /\
  (forall cp, o = Ok cp -> returncode cp <> 0 -> r = Ok None) /\
  (o = Raise FileNotFoundError -> r = Ok None) /\
  (o = Raise TimeoutExpired -> r = Ok None) /\
  (forall e, o = Raise e -> r = Ok None).
Proof.
  intros o r. subst r. rewrite capture_frame_result. fold o.
  repeat split.
  - eexists; reflexivity.
  - intros f H. injection H as H. unfold acquired in H.
    destruct o as [cp|e]; [|discriminate].
    destruct (returncode cp =? 0); simpl in H; [|discriminate].
    destruct (stdout cp) as [|b l]; simpl in H; [discriminate|].
    injection H as <-. discriminate.
  - intros cp -> He. unfold acquired. rewrite He. simpl. now rewrite andb_false_r.
  - intros cp -> Hc. unfold acquired. apply Z.eqb_neq in Hc. now rewrite Hc.
  - intros ->. reflexivity.
  - intros ->. reflexivity.
  - intros e ->. reflexivity.
Qed.

Lemma capture_frame_failures_are_none_witness :
  fst (capture_frame always_missing (PStr "rtsp://a") (fresh_world 0)) = Ok None.
Proof.
  destruct (capture_frame_failures_are_none always_missing (PStr "rtsp://a") (fresh_world 0))
    as (_ & _ & _ & _ & H & _).
  apply H. reflexivity.
Defined.

(** ** send_frame and report_error *)

(** Case analysis on what a response contains. *)
Ltac case_split :=
  repeat (simpl;
          match goal with
          | |- context [(status_code ?r =? ?c)%Z] => destruct (status_code r =? c)%Z eqn:?
          | |- context [match json ?r with _ => _ end] => destruct (json r) eqn:?
          | |- context [match assoc ?k ?d with _ => _ end] => destruct (assoc k d) eqn:?
          | |- context [match ?v with PNone => _ | _ => _ end] => is_var v; destruct v
          end);
  simpl.

Lemma send_frame_total env cfg cam frame w :
  exists res, fst (send_frame env cfg cam frame w) = Ok res.
Proof.
  unfold send_frame, try_except, bind, requests_post, response_json, lift_result,
    dict_get, py_len.
  destruct (outcome (on_post env (n_post w))) as [resp|e]; simpl.
  - case_split; eexists; reflexivity.
  - destruct e; eexists; reflexivity.
Qed.

Lemma send_frame_world env cfg cam frame w :
  let b := on_post env (n_post w) in
  let w' := snd (send_frame env cfg cam frame w) in
  io w' = io w ++ [detect_request cfg cam frame] /\
  n_run w' = n_run w /\ n_post w' = S (n_post w) /\ n_sleep w' = n_sleep w /\
  now w' = (now w + took b)%Q /\
  running w' = running w && no_signal (delivered b).
Proof.
  unfold send_frame, try_except, bind, requests_post, response_json, lift_result,
    dict_get, py_len, detect_request.
  destruct (outcome (on_post env (n_post w))) as [resp|e]; simpl.
  - case_split; autorewrite with world; simpl; repeat split; reflexivity.
  - destruct e; simpl; autorewrite with world; simpl; repeat split; reflexivity.
Qed.

Lemma send_frame_error env cfg cam frame w :
  SubmissionError (outcome (on_post env (n_post w))) ->
  fst (send_frame env cfg cam frame w) = Ok None.
Proof.
  unfold send_frame, try_except, bind, requests_post.
  intros H. inversion H as [resp Hs E|resp Hs E|resp Hs E|E|E]; simpl.
  - rewrite Hs. reflexivity.
  - rewrite Hs. reflexivity.
  - destruct (status_code resp =? 401); [reflexivity|].
    destruct (status_code resp =? 404); [reflexivity|].
    apply Z.eqb_neq in Hs. rewrite Hs. reflexivity.
  - reflexivity.
  - reflexivity.
Qed.

Lemma report_error_world env cfg cam msg w :
  let b := on_post env (n_post w) in
  let w' := snd (report_error env cfg cam msg w) in
  fst (report_error env cfg cam msg w) = Ok tt /\
  io w' = io w ++ [health_request cfg cam msg] /\
  n_run w' = n_run w /\ n_post w' = S (n_post w) /\ n_sleep w' = n_sleep w /\
  now w' = (now w + took b)%Q /\
  running w' = running w && no_signal (delivered b).
Proof.
  unfold report_error, try_except, bind, requests_post, health_request.
  destruct (outcome (on_post env (n_post w))) as [resp|e]; simpl.
  - case_split; autorewrite with world; simpl; repeat split; reflexivity.
  - autorewrite with world; simpl; repeat split; reflexivity.
Qed.

(** ** What the retry loop never does *)

Lemma posts_app a b : posts (a ++ b) = posts a ++ posts b.
Proof. apply filter_app. Qed.

Lemma retry_loop_inv env cfg url :
  forall attempts w,
    let r := retry_loop env cfg attempts url w in
    (exists res, fst r = Ok res) /\
    (exists evs, io (snd r) = io w ++ evs /\ posts evs = []) /\
    n_post (snd r) = n_post w /\
    (running w = false -> running (snd r) = false) /\
    (quiet env -> running (snd r) = running w).
Proof.
  induction attempts as [|a rest IH]; intros w r.
  - subst r; simpl. repeat split; eauto.
    exists []. now rewrite app_nil_r.
  - destruct (capture_frame_world env url w) as (Hio & _ & Hp & _ & _ & Hrun).
    set (w1 := snd (capture_frame env url w)) in *.
    assert (Hq1 : quiet env -> running w1 = running w).
    { intros Q. rewrite Hrun. destruct (Q (n_run w)) as (-> & _). apply andb_true_r. }
    assert (Hs1 : running w = false -> running w1 = false).
    { intros H. now rewrite Hrun, H. }
    destruct (acquired (outcome (on_run env (n_run w)))) as [f|] eqn:Ea.
    + assert (E : r = (Ok (Some f), w1)).
      { subst r. cbn [retry_loop]. unfold bind at 1. now rewrite capture_frame_eq, Ea. }
      rewrite E; cbn [fst snd]. repeat split; eauto.
    + destruct (a <? max_retries cfg - 1) eqn:Ha.
      * set (w2 := snd (time_sleep env (inject_Z (2 ^ a))
                     (record_log INFO
                        [Lit "Retry "; Arg (PInt (a + 1)); Lit "/";
                         Arg (PInt (max_retries cfg)); Lit " in ";
                         Arg (PInt (2 ^ a)); Lit "s..."] w1))).
        assert (E : r = retry_loop env cfg rest url w2).
        { subst r. cbn [retry_loop]. unfold bind at 1. rewrite capture_frame_eq, Ea, Ha.
          reflexivity. }
        destruct (time_sleep_world env (inject_Z (2 ^ a))
                    (record_log INFO
                        [Lit "Retry "; Arg (PInt (a + 1)); Lit "/";
                         Arg (PInt (max_retries cfg)); Lit " in ";
                         Arg (PInt (2 ^ a)); Lit "s..."] w1))
          as (_ & Sio & _ & Sp & _ & _ & Srun).
        fold w2 in Sio, Sp, Srun. cbn [io n_post running n_sleep record_log] in Sio, Sp, Srun.
        destruct (IH w2) as (Hres & (evs & Hevs & Hposts) & Hpost & Hstop & Hquiet).
        rewrite E. repeat split.
        -- exact Hres.
        -- exists ([SubprocessRun (ffmpeg_cmd url) 10; Sleep (inject_Z (2 ^ a))] ++ evs).
           split.
           ++ rewrite Hevs, Sio, Hio, <- !app_assoc. reflexivity.
           ++ rewrite posts_app, Hposts. reflexivity.
        -- now rewrite Hpost, Sp.
        -- intros H. apply Hstop. rewrite Srun, (Hs1 H). reflexivity.
        -- intros Q. rewrite (Hquiet Q), Srun, (Hq1 Q).
           destruct (Q (n_sleep w1)) as (_ & _ & ->). apply andb_true_r.
      * assert (E : r = retry_loop env cfg rest url w1).
        { subst r. cbn [retry_loop]. unfold bind at 1. rewrite capture_frame_eq, Ea, Ha.
          reflexivity. }
        destruct (IH w1) as (Hres & (evs & Hevs & Hposts) & Hpost & Hstop & Hquiet).
        rewrite E. repeat split.
        -- exact Hres.
        -- exists ([SubprocessRun (ffmpeg_cmd url) 10] ++ evs). split.
           ++ rewrite Hevs, Hio, <- !app_assoc. reflexivity.
           ++ rewrite posts_app, Hposts. reflexivity.
        -- now rewrite Hpost.
        -- intros H. apply Hstop, Hs1, H.
        -- intros Q. now rewrite (Hquiet Q), (Hq1 Q).
Qed.

Lemma capture_frame_with_retry_inv env cfg url w :
  let r := capture_frame_with_retry env cfg url w in
  (exists res, fst r = Ok res) /\
  (exists evs, io (snd r) = io w ++ evs /\ posts evs = []) /\
  n_post (snd r) = n_post w /\
  (running w = false -> running (snd r) = false) /\
  (quiet env -> running (snd r) = running w).
Proof.
  intros r.
  destruct (capture_frame_with_retry_of_loop env cfg url w)
    as (Hres & Hio & _ & Hp & _ & Hrun & _).
  fold r in Hres, Hio, Hp, Hrun.
  rewrite Hres, Hio, Hp, Hrun.
  apply retry_loop_inv.
Qed.

(** ** process_camera *)

(** process_camera, one call at a time. *)
Lemma process_camera_unfold env cfg c w :
  process_camera env cfg c w =
  match capture_frame_with_retry env cfg (rtsp_url c) (entering c w) with
  | (Ok None, w1) =>
      report_error env cfg (camera_id c) (capture_failure c)
        (record_log WARNING (capture_failure c) w1)
  | (Ok (Some f), w1) =>
      match send_frame env cfg (camera_id c) f (record_log INFO (captured_log c f) w1) with
      | (Ok None, w3) =>
          (Ok tt, record_log WARNING
                    [Lit "Detection failed for camera "; Arg (camera_name c)] w3)
      | (Ok (Some _), w3) => (Ok tt, w3)
      | (Raise e, w3) => (Raise e, w3)
      end
  | (Raise e, w1) => (Raise e, w1)
  end.
Proof.
  unfold process_camera. unfold bind at 1. unfold log at 1. unfold bind at 1.
  fold (camera_name c). fold (entering c w).
  destruct (capture_frame_with_retry env cfg (rtsp_url c) (entering c w))
    as [[[f|]|e] w1]; try reflexivity.
  unfold bind at 1. unfold log at 1. unfold bind at 1. fold (captured_log c f).
  destruct (send_frame env cfg (camera_id c) f (record_log INFO (captured_log c f) w1))
    as [[[v|]|e] w3]; reflexivity.
Qed.

Lemma process_camera_failed env cfg c w :
  let r1 := capture_frame_with_retry env cfg (rtsp_url c) (entering c w) in
  let r := process_camera env cfg c w in
  fst r1 = Ok None ->
  fst r = Ok tt /\
  io (snd r) = io (snd r1) ++ [health_request cfg (camera_id c) (capture_failure c)] /\
  running (snd r) =
    running (snd r1) && no_signal (delivered (on_post env (n_post (snd r1)))).
Proof.
  intros r1 r H1. subst r. rewrite process_camera_unfold. fold r1.
  clearbody r1. destruct r1 as [res1 w1]. simpl in H1. subst res1. cbn [snd].
  destruct (report_error_world env cfg (camera_id c) (capture_failure c)
              (record_log WARNING (capture_failure c) w1))
    as (Rres & Rio & _ & _ & _ & _ & Rrun).
  cbn [io n_post running record_log] in Rio, Rrun.
  repeat split; assumption.
Qed.

Lemma process_camera_captured env cfg c w f :
  let r1 := capture_frame_with_retry env cfg (rtsp_url c) (entering c w) in
  let r := process_camera env cfg c w in
  fst r1 = Ok (Some f) ->
  fst r = Ok tt /\
  io (snd r) = io (snd r1) ++ [detect_request cfg (camera_id c) f] /\
  running (snd r) =
    running (snd r1) && no_signal (delivered (on_post env (n_post (snd r1)))).
Proof.
  intros r1 r H1. subst r. rewrite process_camera_unfold. fold r1.
  clearbody r1. destruct r1 as [res1 w1]. simpl in H1. subst res1. cbn [snd].
  set (w2 := record_log INFO (captured_log c f) w1).
  destruct (send_frame_world env cfg (camera_id c) f w2)
    as (Sio & _ & _ & _ & _ & Srun).
  destruct (send_frame_total env cfg (camera_id c) f w2) as (res & Sres).
  cbn [io n_post running record_log w2] in Sio, Srun.
  destruct (send_frame env cfg (camera_id c) f w2) as [[[v|]|e] w3];
    simpl in *; try discriminate; repeat split; assumption.
Qed.

(** process_camera never raises; it cannot set the flag again; and it
    leaves the flag alone when no signal arrives. *)
Lemma process_camera_inv env cfg c w :
  let r := process_camera env cfg c w in
  fst r = Ok tt /\
  (running w = false -> running (snd r) = false) /\
  (quiet env -> running (snd r) = running w).
Proof.
  intros r.
  destruct (capture_frame_with_retry_inv env cfg (rtsp_url c) (entering c w))
    as ((res & Hres) & _ & _ & Hstop & Hquiet).
  cbn [running entering record_log] in Hstop, Hquiet.
  destruct res as [f|].
  - destruct (process_camera_captured env cfg c w f Hres) as (R & _ & Hrun).
    fold r in R, Hrun. repeat split; [exact R| |].
    + intros H. now rewrite Hrun, (Hstop H).
    + intros Q. rewrite Hrun, (Hquiet Q).
      destruct (Q (n_post (snd (capture_frame_with_retry env cfg (rtsp_url c) (entering c w)))))
        as (_ & -> & _).
      apply andb_true_r.
  - destruct (process_camera_failed env cfg c w Hres) as (R & _ & Hrun).
    fold r in R, Hrun. repeat split; [exact R| |].
    + intros H. now rewrite Hrun, (Hstop H).
    + intros Q. rewrite Hrun, (Hquiet Q).
      destruct (Q (n_post (snd (capture_frame_with_retry env cfg (rtsp_url c) (entering c w)))))
        as (_ & -> & _).
      apply andb_true_r.
Qed.

(** ** The pass over the cameras *)

Lemma for_cameras_stopped env cfg cs w :
  running w = false -> for_cameras env cfg cs w = (Ok tt, w).
Proof.
  intros H. destruct cs as [|c rest]; [reflexivity|].
  cbn [for_cameras]. unfold bind, get_running. now rewrite H.
Qed.

Lemma for_cameras_step env cfg c rest w :
  running w = true ->
  for_cameras env cfg (c :: rest) w =
  for_cameras env cfg rest (snd (process_camera env cfg c w)).
Proof.
  intros H. cbn [for_cameras]. unfold bind at 1. unfold get_running. rewrite H.
  cbn [negb]. unfold bind at 1.
  destruct (process_camera_inv env cfg c w) as (R & _).
  destruct (process_camera env cfg c w) as [res w1]. simpl in R. now rewrite R.
Qed.

Lemma process_all_step env cfg c rest w :
  process_all env cfg (c :: rest) w =
  process_all env cfg rest (snd (process_camera env cfg c w)).
Proof.
  cbn [process_all]. unfold bind at 1.
  destruct (process_camera_inv env cfg c w) as (R & _).
  destruct (process_camera env cfg c w) as [res w1]. simpl in R. now rewrite R.
Qed.

Lemma for_cameras_quiet env cfg :
  quiet env ->
  forall cs w, running w = true -> for_cameras env cfg cs w = process_all env cfg cs w.
Proof.
  intros Q. induction cs as [|c rest IH]; intros w H; [reflexivity|].
  rewrite for_cameras_step, process_all_step by exact H.
  apply IH. destruct (process_camera_inv env cfg c w) as (_ & _ & Hq).
  now rewrite (Hq Q).
Qed.

Lemma for_cameras_inv env cfg :
  forall cs w,
    let r := for_cameras env cfg cs w in
    fst r = Ok tt /\
    (running w = false -> running (snd r) = false) /\
    (quiet env -> running (snd r) = running w).
Proof.
  induction cs as [|c rest IH]; intros w r.
  - subst r; simpl. auto.
  - destruct (running w) eqn:H.
    + subst r. rewrite for_cameras_step by exact H.
      destruct (IH (snd (process_camera env cfg c w))) as (R & Hs & Hq).
      destruct (process_camera_inv env cfg c w) as (_ & _ & Pq).
      repeat split; [exact R|discriminate|].
      intros Q. now rewrite (Hq Q), (Pq Q).
    + subst r. rewrite for_cameras_stopped by exact H. simpl. auto.
Qed.

(** All attempts failing, whatever max_retries is: the result is None. *)
Lemma capture_frame_with_retry_none env cfg url w :
  (forall j, (j < Z.to_nat (max_retries cfg))%nat -> fails env (n_run w + j)) ->
  fst (capture_frame_with_retry env cfg url w) = Ok None.
Proof.
  intros Hf. destruct (Z_le_gt_dec (max_retries cfg) 0) as [H|H].
  - now destruct (capture_frame_with_retry_empty env cfg url w H).
  - destruct (capture_frame_with_retry_exhausted env cfg url w) as (evs & R & _);
      [lia|exact Hf|exact R].
Qed.

(** C5.  When the loop reaches a source A whose acquisition fails at every
    attempt, processing A returns normally, the only HTTP request it makes
    is one health report with A's identifier and the failure message (so no
    detection submission), and the loop goes on with the sources after A:
    with the next one if no shutdown arrived meanwhile, and with every one
    of them, in order, when no shutdown signal arrives at all. *)
Theorem failed_capture_is_reported env cfg A later w :
  running w = true ->
  (forall j, (j < Z.to_nat (max_retries cfg))%nat -> fails env (n_run w + j)) ->
  let wA := snd (process_camera env cfg A w) in
  fst (process_camera env cfg A w) = Ok tt /\
  (exists evs, io wA = io w ++ evs /\
     posts evs = [health_request cfg (camera_id A) (capture_failure A)]) /\
  for_cameras env cfg (A :: later) w = for_cameras env cfg later wA /\
  (running wA = true ->
   forall B rest, later = B :: rest ->
     for_cameras env cfg (A :: later) w =
     for_cameras env cfg rest (snd (process_camera env cfg B wA))) /\
  (quiet env ->
   for_cameras env cfg (A :: later) w = process_all env cfg later wA).
Proof.
  intros Hrun Hf wA.
  assert (H1 : fst (capture_frame_with_retry env cfg (rtsp_url A) (entering A w)) = Ok None).
  { apply capture_frame_with_retry_none. exact Hf. }
  destruct (process_camera_failed env cfg A w H1) as (R & Hio & _).
  destruct (capture_frame_with_retry_inv env cfg (rtsp_url A) (entering A w))
    as (_ & (evs & Hevs & Hposts) & _).
  cbn [io entering record_log] in Hevs.
  repeat split.
  - exact R.
  - exists (evs ++ [health_request cfg (camera_id A) (capture_failure A)]). split.
    + subst wA. rewrite Hio, Hevs, <- app_assoc. reflexivity.
    + rewrite posts_app, Hposts. reflexivity.
  - apply for_cameras_step. exact Hrun.
  - intros HA B rest ->. rewrite for_cameras_step by exact Hrun.
    fold wA. apply for_cameras_step. exact HA.
  - intros Q. rewrite for_cameras_step by exact Hrun. fold wA.
    apply for_cameras_quiet; [exact Q|].
    destruct (process_camera_inv env cfg A w) as (_ & _ & Pq).
    subst wA. now rewrite (Pq Q).
Qed.

Lemma failed_capture_is_reported_witness :
  io (snd (for_cameras a_fails_b_works two_cameras [camA; camB]
             (assign_running true (fresh_world 0)))) =
  [capture (PStr "rtsp://a");
   health_request two_cameras (PStr "A") (capture_failure camA);
   capture (PStr "rtsp://b");
   detect_request two_cameras (PStr "B") jpeg].
Proof.
  destruct (failed_capture_is_reported a_fails_b_works two_cameras camA [camB]
              (assign_running true (fresh_world 0)))
    as (_ & _ & E & _).
  - reflexivity.
  - intros j Hj. simpl in Hj. assert (j = 0%nat) as -> by lia. reflexivity.
  - rewrite E. reflexivity.
Defined.

(** C6.  When the frame of a source was captured (at attempt k) and the
    submission ends in one of the error classes (401, 404, another status
    than 200, timeout, connection failure), send_frame returns None and
    does not raise; processing the source returns normally; the only HTTP
    request made for it is the detection request (so no health report);
    and the loop goes on with the sources after it exactly as after any
    other source. *)
Theorem failed_submission_is_only_logged env cfg c later w k f :
  running w = true ->
  (1 <= k <= Z.to_nat (max_retries cfg))%nat ->
  (forall j, (j < k - 1)%nat -> fails env (n_run w + j)) ->
  acquired (outcome (on_run env (n_run w + (k - 1)))) = Some f ->
  SubmissionError (outcome (on_post env (n_post w))) ->
  let wc := snd (process_camera env cfg c w) in
  (forall w2, n_post w2 = n_post w ->
     fst (send_frame env cfg (camera_id c) f w2) = Ok None) /\
  fst (process_camera env cfg c w) = Ok tt /\
  (exists evs, io wc = io w ++ evs /\
     posts evs = [detect_request cfg (camera_id c) f]) /\
  for_cameras env cfg (c :: later) w = for_cameras env cfg later wc /\
  (running wc = true ->
   forall B rest, later = B :: rest ->
     for_cameras env cfg (c :: later) w =
     for_cameras env cfg rest (snd (process_camera env cfg B wc))) /\
  (quiet env ->
   for_cameras env cfg (c :: later) w = process_all env cfg later wc).
Proof.
  intros Hrun Hk Hf Hok Herr wc.
  destruct (capture_frame_with_retry_succeeds env cfg (rtsp_url c) (entering c w) k f Hk Hf Hok)
    as (evs & H1 & Hevs & Eevs & _).
  destruct (process_camera_captured env cfg c w f H1) as (R & Hio & _).
  cbn [io entering record_log] in Hevs.
  repeat split.
  - intros w2 E. apply send_frame_error. now rewrite E.
  - exact R.
  - exists (evs ++ [detect_request cfg (camera_id c) f]). split.
    + subst wc. rewrite Hio, Hevs, <- app_assoc. reflexivity.
    + rewrite posts_app. subst evs. rewrite posts_app.
      assert (P0 : forall n a, posts (flat_map (failed_attempt (rtsp_url c)) (seq a n)) = []).
      { induction n as [|n IH]; intro a; simpl; [reflexivity|]. apply IH. }
      rewrite P0. reflexivity.
  - apply for_cameras_step. exact Hrun.
  - intros HA B rest ->. rewrite for_cameras_step by exact Hrun.
    fold wc. apply for_cameras_step. exact HA.
  - intros Q. rewrite for_cameras_step by exact Hrun. fold wc.
    apply for_cameras_quiet; [exact Q|].
    destruct (process_camera_inv env cfg c w) as (_ & _ & Pq).
    subst wc. now rewrite (Pq Q).
Qed.

Lemma failed_submission_is_only_logged_witness :
  io (snd (for_cameras unauthorized two_cameras [camA; camB]
             (assign_running true (fresh_world 0)))) =
  [capture (PStr "rtsp://a");
   detect_request two_cameras (PStr "A") jpeg;
   capture (PStr "rtsp://b");
   detect_request two_cameras (PStr "B") jpeg].
Proof.
  destruct (failed_submission_is_only_logged unauthorized two_cameras camA [camB]
              (assign_running true (fresh_world 0)) 1%nat jpeg)
    as (_ & _ & _ & E & _).
  - reflexivity.
  - simpl. split; apply le_n.
  - intros j Hj. inversion Hj.
  - reflexivity.
  - apply auth_rejected. reflexivity.
  - rewrite E. reflexivity.
Defined.

(** ** The scheduler *)

Lemma finish_cycle_stopped env cfg t0 w :
  running w = false -> finish_cycle env cfg t0 w = (Ok tt, w).
Proof.
  intros H. unfold finish_cycle, bind, time_time, get_running.
  now rewrite H, andb_false_r.
Qed.

Lemma cycle_eq env cfg w :
  cycle env cfg w =
  finish_cycle env cfg (now w) (snd (for_cameras env cfg (cameras cfg) w)).
Proof.
  unfold cycle. unfold bind at 1. unfold time_time at 1. unfold bind at 1.
  destruct (for_cameras_inv env cfg (cameras cfg) w) as (R & _).
  destruct (for_cameras env cfg (cameras cfg) w) as [res w1]. simpl in R. now rewrite R.
Qed.

Lemma Qltb_lt a b : Qltb a b = true <-> (a < b)%Q.
Proof.
  unfold Qltb. rewrite Qlt_alt. destruct (a ?= b)%Q; split; congruence.
Qed.

Lemma max0_pos x : (0 < x)%Q -> max0 x = x.
Proof. unfold max0. rewrite Qlt_alt. now intros ->. Qed.

Lemma max0_nonpos x : (x <= 0)%Q -> max0 x = 0%Q.
Proof.
  unfold max0. intros H. destruct (0 ?= x)%Q eqn:E; try reflexivity.
  apply Qlt_alt in E. apply Qle_not_lt in H. contradiction.
Qed.

(** The tail of a pass, case by case. *)
Lemma finish_cycle_cases env cfg t0 w :
  let r := finish_cycle env cfg t0 w in
  let left := (interval cfg - (now w - t0))%Q in
  fst r = Ok tt /\
  (running w = true -> (0 < left)%Q ->
   io (snd r) = io w ++ [Sleep left] /\ now (snd r) = (now w + left)%Q /\
   running (snd r) = no_signal (on_sleep env (n_sleep w))) /\
  (running w = true -> (left <= 0)%Q -> snd r = w) /\
  (running w = false -> snd r = w).
Proof.
  intros r left. subst r.
  unfold finish_cycle, bind, time_time, get_running. fold left.
  destruct (running w) eqn:Hrun.
  - destruct (Qlt_le_dec 0 left) as [Hl|Hl].
    + rewrite (max0_pos _ Hl). rewrite (proj2 (Qltb_lt 0 left) Hl). simpl.
      autorewrite with world. simpl. rewrite Hrun.
      split; [reflexivity|]. split; [|split].
      * intros _ _. repeat split; reflexivity.
      * intros _ Hle. apply Qle_not_lt in Hle. contradiction.
      * discriminate.
    + rewrite (max0_nonpos _ Hl). simpl.
      split; [reflexivity|]. split; [|split].
      * intros _ Hlt. apply Qle_not_lt in Hl. contradiction.
      * reflexivity.
      * discriminate.
  - rewrite andb_false_r. simpl.
    split; [reflexivity|]. split; [|split]; try discriminate. reflexivity.
Qed.

Lemma while_running_stopped env cfg k w :
  running w = false -> while_running env cfg (S k) w = (Ok true, w).
Proof.
  intros H. cbn [while_running]. unfold bind, get_running. now rewrite H.
Qed.

Lemma cycle_inv env cfg w :
  let r := cycle env cfg w in
  fst r = Ok tt /\
  (running w = false -> running (snd r) = false) /\
  (quiet env -> running (snd r) = running w).
Proof.
  intros r. subst r. rewrite cycle_eq.
  destruct (for_cameras_inv env cfg (cameras cfg) w) as (_ & Hs & Hq).
  set (w1 := snd (for_cameras env cfg (cameras cfg) w)) in *.
  destruct (finish_cycle_cases env cfg (now w) w1) as (R & Hpos & Hnon & Hstop).
  repeat split.
  - exact R.
  - intros H. rewrite (Hstop (Hs H)). exact (Hs H).
  - intros Q. rewrite <- (Hq Q).
    destruct (running w1) eqn:H1.
    + destruct (Qlt_le_dec 0 (interval cfg - (now w1 - now w))) as [Hl|Hl].
      * destruct (Hpos eq_refl Hl) as (_ & _ & ->).
        destruct (Q (n_sleep w1)) as (_ & _ & ->). reflexivity.
      * now rewrite (Hnon eq_refl Hl).
    + now rewrite (Hstop eq_refl).
Qed.

Lemma while_running_step env cfg k w :
  running w = true ->
  while_running env cfg (S k) w = while_running env cfg k (snd (cycle env cfg w)).
Proof.
  intros H. cbn [while_running]. unfold bind at 1. unfold get_running. rewrite H.
  unfold bind at 1.
  destruct (cycle_inv env cfg w) as (R & _).
  destruct (cycle env cfg w) as [res w1]. simpl in R. now rewrite R.
Qed.

(** Without a signal the loop never ends. *)
Lemma while_running_quiet env cfg :
  quiet env ->
  forall fuel w,
    running w = true ->
    fst (while_running env cfg fuel w) = Ok false /\
    running (snd (while_running env cfg fuel w)) = true.
Proof.
  intros Q. induction fuel as [|k IH]; intros w H.
  - simpl. auto.
  - rewrite while_running_step by exact H. apply IH.
    destruct (cycle_inv env cfg w) as (_ & _ & Hq). now rewrite (Hq Q).
Qed.





(** ** Shutdown *)

Lemma deliver_handled sigs w :
  handled (deliver sigs w) = handled w ++ map (fun s => (s, now w)) sigs.
Proof.
  revert w; induction sigs as [|s sigs IH]; intro w; simpl.
  - now rewrite app_nil_r.
  - rewrite IH. simpl. now rewrite <- app_assoc.
Qed.

Lemma run_eq env cfg fuel w :
  run env cfg fuel w =
  match while_running env cfg fuel (entering_loop cfg w) with
  | (Ok true, w2) => (Ok true, record_log INFO [Lit "Vision client stopped"] w2)
  | (Ok false, w2) => (Ok false, w2)
  | (Raise e, w2) => (Raise e, w2)
  end.
Proof.
  unfold run, bind, log, set_running. fold (entering_loop cfg w).
  destruct (while_running env cfg fuel (entering_loop cfg w)) as [[[|]|e] w2]; reflexivity.
Qed.

(** C7, what the code does when a signal comes early.  Both signals run
    the same handler, which clears the flag.  But a signal handled after
    the client was constructed and before run() assigns the flag is
    forgotten: run() sets the flag and, with no further signal, the loop is
    still going after any number of passes. *)
Theorem signal_before_run_is_forgotten env cfg w fuel :
  quiet env ->
  on_boot env <> [] ->
  let booted := deliver (on_boot env) (assign_running false w) in
  let r := client env cfg w fuel in
  (forall s w', running (_handle_shutdown s w') = false) /\
  handled booted <> [] /\
  running booted = false /\
  fst r = Ok false /\
  running (snd r) = true.
Proof.
  intros Q Hb booted r.
  split; [reflexivity|]. split; [|split].
  - subst booted. rewrite deliver_handled.
    destruct (on_boot env) as [|s sigs]; [contradiction|].
    simpl. intros E. apply app_eq_nil in E. destruct E as (_ & E). discriminate E.
  - subst booted. apply deliver_stopped. reflexivity.
  - subst r. unfold client. fold booted.
    rewrite run_eq.
    destruct (while_running_quiet env cfg Q fuel (entering_loop cfg booted) eq_refl)
      as (R & Hrun).
    destruct (while_running env cfg fuel (entering_loop cfg booted)) as [[[|]|e] w2];
      simpl in *; try discriminate. auto.
Qed.

Lemma signal_before_run_is_forgotten_witness :
  fst (client early_sigterm (one_camera 5) (fresh_world 0) 3) = Ok false /\
  running (snd (client early_sigterm (one_camera 5) (fresh_world 0) 3)) = true.
Proof.
  destruct (signal_before_run_is_forgotten early_sigterm (one_camera 5) (fresh_world 0) 3)
    as (_ & _ & _ & R & H).
  - intro n. repeat split.
  - discriminate.
  - split; [exact R | exact H].
Defined.

(** ** A signal during a backoff sleep *)

Lemma same_course_log l m l' m' w w' :
  same_course w w' -> same_course (record_log l m w) (record_log l' m' w').
Proof. intros H. exact H. Qed.

Lemma capture_frame_sim env url w w' :
  same_course w w' ->
  fst (capture_frame env url w) = fst (capture_frame (silenced env) url w') /\
  same_course (snd (capture_frame env url w)) (snd (capture_frame (silenced env) url w')).
Proof.
  intros (Hn & Hr & Hp & Hs & Hio).
  rewrite !capture_frame_result.
  destruct (capture_frame_world env url w) as (A1 & A2 & A3 & A4 & A5 & _).
  destruct (capture_frame_world (silenced env) url w') as (B1 & B2 & B3 & B4 & B5 & _).
  unfold same_course. rewrite A1, A2, A3, A4, A5, B1, B2, B3, B4, B5.
  simpl. rewrite Hn, Hr, Hp, Hs, Hio. repeat split; reflexivity.
Qed.

Lemma time_sleep_sim env d w w' :
  same_course w w' ->
  same_course (snd (time_sleep env d w)) (snd (time_sleep (silenced env) d w')).
Proof.
  intros (Hn & Hr & Hp & Hs & Hio).
  destruct (time_sleep_world env d w) as (_ & A1 & A2 & A3 & A4 & A5 & _).
  destruct (time_sleep_world (silenced env) d w') as (_ & B1 & B2 & B3 & B4 & B5 & _).
  unfold same_course. rewrite A1, A2, A3, A4, A5, B1, B2, B3, B4, B5.
  rewrite Hn, Hr, Hp, Hs, Hio. repeat split; reflexivity.
Qed.

(** One turn of the retry loop. *)
Lemma retry_loop_cons env cfg a rest url w :
  retry_loop env cfg (a :: rest) url w =
  match acquired (outcome (on_run env (n_run w))) with
  | Some f => (Ok (Some f), snd (capture_frame env url w))
  | None =>
      if a <? max_retries cfg - 1
      then retry_loop env cfg rest url
             (snd (time_sleep env (inject_Z (2 ^ a))
                     (record_log INFO (retry_log cfg a) (snd (capture_frame env url w)))))
      else retry_loop env cfg rest url (snd (capture_frame env url w))
  end.
Proof.
  cbn [retry_loop]. unfold bind at 1. rewrite capture_frame_eq.
  destruct (acquired (outcome (on_run env (n_run w)))) as [f|]; [reflexivity|].
  destruct (a <? max_retries cfg - 1); reflexivity.
Qed.

Lemma retry_loop_sim env cfg url :
  forall attempts w w',
    same_course w w' ->
    fst (retry_loop env cfg attempts url w) =
      fst (retry_loop (silenced env) cfg attempts url w') /\
    same_course (snd (retry_loop env cfg attempts url w))
                (snd (retry_loop (silenced env) cfg attempts url w')).
Proof.
  induction attempts as [|a rest IH]; intros w w' H.
  - simpl. split; [reflexivity|exact H].
  - destruct (capture_frame_sim env url w w' H) as (Hres & Hsim).
    rewrite !retry_loop_cons.
    rewrite !capture_frame_result in Hres. injection Hres as Hres.
    change (acquired (outcome (on_run env (n_run w))) =
            acquired (outcome (on_run (silenced env) (n_run w')))) in Hres.
    rewrite <- Hres.
    destruct (acquired (outcome (on_run env (n_run w)))) as [f|].
    + split; [reflexivity|exact Hsim].
    + destruct (a <? max_retries cfg - 1).
      * apply IH. apply time_sleep_sim. apply same_course_log. exact Hsim.
      * apply IH. exact Hsim.
Qed.

Lemma capture_frame_with_retry_sim env cfg url w w' :
  same_course w w' ->
  fst (capture_frame_with_retry env cfg url w) =
    fst (capture_frame_with_retry (silenced env) cfg url w') /\
  same_course (snd (capture_frame_with_retry env cfg url w))
              (snd (capture_frame_with_retry (silenced env) cfg url w')).
Proof.
  intros H.
  destruct (retry_loop_sim env cfg url (range (max_retries cfg)) w w' H) as (Hres & Hsim).
  unfold capture_frame_with_retry, bind.
  destruct (retry_loop env cfg (range (max_retries cfg)) url w) as [r1 w1].
  destruct (retry_loop (silenced env) cfg (range (max_retries cfg)) url w') as [r2 w2].
  simpl in Hres, Hsim. subst r2.
  destruct r1 as [[f|]|e]; simpl; split; try reflexivity; exact Hsim.
Qed.

Lemma send_frame_sim env cfg cam frame w w' :
  same_course w w' ->
  fst (send_frame env cfg cam frame w) = fst (send_frame (silenced env) cfg cam frame w') /\
  same_course (snd (send_frame env cfg cam frame w))
              (snd (send_frame (silenced env) cfg cam frame w')).
Proof.
  intros (Hn & Hr & Hp & Hs & Hio). split.
  - unfold send_frame, try_except, bind, requests_post, response_json, lift_result,
      dict_get, py_len.
    simpl. rewrite <- Hp.
    destruct (outcome (on_post env (n_post w))) as [resp|e]; simpl.
    + case_split; reflexivity.
    + destruct e; reflexivity.
  - destruct (send_frame_world env cfg cam frame w) as (A1 & A2 & A3 & A4 & A5 & _).
    destruct (send_frame_world (silenced env) cfg cam frame w')
      as (B1 & B2 & B3 & B4 & B5 & _).
    unfold same_course. rewrite A1, A2, A3, A4, A5, B1, B2, B3, B4, B5.
    simpl. rewrite Hn, Hr, Hp, Hs, Hio. repeat split; reflexivity.
Qed.

Lemma report_error_sim env cfg cam msg w w' :
  same_course w w' ->
  same_course (snd (report_error env cfg cam msg w))
              (snd (report_error (silenced env) cfg cam msg w')).
Proof.
  intros (Hn & Hr & Hp & Hs & Hio).
  destruct (report_error_world env cfg cam msg w) as (_ & A1 & A2 & A3 & A4 & A5 & _).
  destruct (report_error_world (silenced env) cfg cam msg w')
    as (_ & B1 & B2 & B3 & B4 & B5 & _).
  unfold same_course. rewrite A1, A2, A3, A4, A5, B1, B2, B3, B4, B5.
  simpl. rewrite Hn, Hr, Hp, Hs, Hio. repeat split; reflexivity.
Qed.

(** Signals change nothing in what process_camera does, nor in when. *)
Lemma process_camera_sim env cfg c w w' :
  same_course w w' ->
  same_course (snd (process_camera env cfg c w))
              (snd (process_camera (silenced env) cfg c w')).
Proof.
  intros H. rewrite !process_camera_unfold.
  destruct (capture_frame_with_retry_sim env cfg (rtsp_url c) (entering c w) (entering c w'))
    as (Hres & Hsim).
  { apply same_course_log. exact H. }
  destruct (capture_frame_with_retry env cfg (rtsp_url c) (entering c w)) as [r1 w1].
  destruct (capture_frame_with_retry (silenced env) cfg (rtsp_url c) (entering c w'))
    as [r2 w2].
  simpl in Hres, Hsim. subst r2.
  destruct r1 as [[f|]|e].
  - destruct (send_frame_sim env cfg (camera_id c) f
                (record_log INFO (captured_log c f) w1)
                (record_log INFO (captured_log c f) w2)) as (Sres & Ssim).
    { apply same_course_log. exact Hsim. }
    destruct (send_frame env cfg (camera_id c) f (record_log INFO (captured_log c f) w1))
      as [s1 w3].
    destruct (send_frame (silenced env) cfg (camera_id c) f
                (record_log INFO (captured_log c f) w2)) as [s2 w4].
    simpl in Sres, Ssim. subst s2.
    destruct s1 as [[v|]|e]; simpl; exact Ssim.
  - apply report_error_sim. apply same_course_log. exact Hsim.
  - exact Hsim.
Qed.

Lemma same_course_refl w : same_course w w.
Proof. repeat split. Qed.

(** A signal during the backoff sleep that follows failed attempt [i]
    leaves the flag cleared when capture_frame_with_retry returns. *)
Lemma signal_in_backoff_clears_flag env cfg url w i :
  (i + 1 < Z.to_nat (max_retries cfg))%nat ->
  (forall j, (j <= i)%nat -> fails env (n_run w + j)) ->
  no_signal (on_sleep env (n_sleep w + i)) = false ->
  running (snd (capture_frame_with_retry env cfg url w)) = false.
Proof.
  intros Hi Hf Hsig.
  destruct (capture_frame_with_retry_of_loop env cfg url w) as (_ & _ & _ & _ & _ & -> & _).
  rewrite range_attempts.
  destruct (retry_loop_skip env cfg url (i + 1) 0 (Z.to_nat (max_retries cfg)) w)
    as (w1 & -> & _ & _ & _ & _ & _ & Hstop).
  - exact Hi.
  - simpl. lia.
  - intros j Hj. apply Hf. lia.
  - apply retry_loop_inv. apply Hstop. exists i. split; [lia|exact Hsig].
Qed.

(** process_camera ends with the flag cleared if its capture did. *)
Lemma process_camera_keeps_stopped env cfg c w :
  running (snd (capture_frame_with_retry env cfg (rtsp_url c) (entering c w))) = false ->
  running (snd (process_camera env cfg c w)) = false.
Proof.
  intros H.
  destruct (capture_frame_with_retry_inv env cfg (rtsp_url c) (entering c w))
    as ((res & Hres) & _).
  destruct res as [f|].
  - destruct (process_camera_captured env cfg c w f Hres) as (_ & _ & ->). now rewrite H.
  - destruct (process_camera_failed env cfg c w Hres) as (_ & _ & ->). now rewrite H.
Qed.

(** C2, counterexample.  One source, max_retries 5, every capture failing
    at once, SIGTERM during the first backoff sleep (which ends at time 1):
    the four remaining attempts and the sleeps of 2, 4 and 8 s are still
    carried out, and run() returns at time 15, 14 s after the signal. *)
Lemma shutdown_in_backoff_is_not_prompt :
  ~ exits_within_10 sigterm_in_first_backoff (one_camera 5) 2.
Proof.
  unfold exits_within_10. intros H.
  assert (R : fst (client sigterm_in_first_backoff (one_camera 5) (fresh_world 0) 2) = Ok true)
    by (vm_compute; reflexivity).
  assert (S1 : In (SIGTERM, 1%Q)
                 (handled (snd (client sigterm_in_first_backoff (one_camera 5)
                                  (fresh_world 0) 2))))
    by (vm_compute; left; reflexivity).
  assert (L : ~ (now (snd (client sigterm_in_first_backoff (one_camera 5)
                             (fresh_world 0) 2)) - 1 <= 10)%Q)
    by (vm_compute; intros K; apply K; reflexivity).
  exact (L (H R SIGTERM 1%Q S1)).
Qed.

(** C2, amended.  If a shutdown signal arrives during a backoff sleep of
    capture_frame_with_retry, the source being processed is still processed
    to its end, exactly as if no signal had arrived: the same captures,
    sleeps and request, taking the same time.  The flag is cleared when
    that processing returns, and from there no further source is
    processed, no inter-cycle sleep is made, and run()'s loop is left. *)
Theorem shutdown_in_backoff_completes_the_source env cfg A later w i fuel :
  running w = true ->
  (i + 1 < Z.to_nat (max_retries cfg))%nat ->
  (forall j, (j <= i)%nat -> fails env (n_run w + j)) ->
  no_signal (on_sleep env (n_sleep w + i)) = false ->
  let wA := snd (process_camera env cfg A w) in
  let undisturbed := snd (process_camera (silenced env) cfg A w) in
  io wA = io undisturbed /\
  now wA = now undisturbed /\
  running wA = false /\
  for_cameras env cfg (A :: later) w = (Ok tt, wA) /\
  (forall cycle_start, finish_cycle env cfg cycle_start wA = (Ok tt, wA)) /\
  while_running env cfg (S fuel) wA = (Ok true, wA).
Proof.
  intros Hrun Hi Hf Hsig wA undisturbed.
  assert (Hstop : running wA = false).
  { apply process_camera_keeps_stopped.
    apply (signal_in_backoff_clears_flag env cfg (rtsp_url A) (entering A w) i Hi Hf Hsig). }
  destruct (process_camera_sim env cfg A w w (same_course_refl w))
    as (Hnow & _ & _ & _ & Hio).
  split; [exact Hio|]. split; [exact Hnow|]. split; [exact Hstop|].
  split; [|split].
  - rewrite for_cameras_step by exact Hrun. apply for_cameras_stopped. exact Hstop.
  - intros t0. apply finish_cycle_stopped. exact Hstop.
  - apply while_running_stopped. exact Hstop.
Qed.

Lemma shutdown_in_backoff_completes_the_source_witness :
  io (snd (process_camera sigterm_in_first_backoff (one_camera 5) camA
             (assign_running true (fresh_world 0)))) =
  [capture (PStr "rtsp://a"); Sleep 1; capture (PStr "rtsp://a"); Sleep 2;
   capture (PStr "rtsp://a"); Sleep 4; capture (PStr "rtsp://a"); Sleep 8;
   capture (PStr "rtsp://a");
   health_request (one_camera 5) (PStr "A") (capture_failure camA)] /\
  running (snd (process_camera sigterm_in_first_backoff (one_camera 5) camA
                  (assign_running true (fresh_world 0)))) = false.
Proof.
  destruct (shutdown_in_backoff_completes_the_source sigterm_in_first_backoff
              (one_camera 5) camA [] (assign_running true (fresh_world 0)) 0%nat 0%nat)
    as (Hio & _ & Hstop & _).
  - reflexivity.
  - vm_compute. apply le_S, le_S, le_S, le_n.
  - intros j Hj. reflexivity.
  - reflexivity.
  - split; [rewrite Hio; reflexivity | exact Hstop].
Defined.

(** ** Start-up validation *)


Lemma camera_of_malformed v :
  well_formed_entry v = false -> exists e, camera_of v = Raise e.
Proof.
  unfold well_formed_entry, camera_of, subscript, dict_get.
  destruct v; try (intros _; eexists; reflexivity).
  destruct (assoc "camera_id" d); [|intros _; eexists; reflexivity].
  destruct (assoc "rtsp_url" d); [discriminate|intros _; eexists; reflexivity].
Qed.

Lemma collect_malformed v :
  well_formed_entry v = false ->
  forall items acc, In v items -> exists e, collect items acc = Raise e.
Proof.
  intros Hv. induction items as [|x rest IH]; intros acc Hin; [contradiction|].
  simpl. destruct Hin as [->|Hin].
  - destruct (camera_of_malformed v Hv) as (e & ->). eexists; reflexivity.
  - destruct (camera_of x); [apply IH; exact Hin|eexists; reflexivity].
Qed.




Lemma while_running_left env cfg :
  forall fuel w,
    fst (while_running env cfg fuel w) = Ok true ->
    running (snd (while_running env cfg fuel w)) = false.
Proof.
  induction fuel as [|k IH]; intros w; [discriminate|].
  destruct (running w) eqn:H.
  - rewrite while_running_step by exact H. apply IH.
  - rewrite while_running_stopped by exact H. intros _. exact H.
Qed.





(** ** The durations time.sleep accepts *)

(** A backoff of 2^33 s is accepted and one of 2^34 s is not; an interval of
    1e10 s is not accepted, the default of 2 s is. *)
Example accepted_sleeps :
  acceptedb (inject_Z (2 ^ 33)) = true /\ acceptedb (inject_Z (2 ^ 34)) = false /\
  acceptedb (inject_Z (10 ^ 10)) = false /\ acceptedb 2 = true.
Proof. vm_compute. repeat split; reflexivity. Qed.

(** ** The examples of the specification *)

(** Two sources, interval 2 s, max_retries 1, A failing and B working: one
    pass makes one capture and one health report for A, one capture and one
    detection request for B, and sleeps what is left of the 2 s. *)
Example one_pass_over_two_sources :
  let w := snd (cycle a_fails_b_works two_cameras (assign_running true (fresh_world 0))) in
  captures (io w) = 2%nat /\
  posts (io w) = [health_request two_cameras (PStr "A") (capture_failure camA);
                  detect_request two_cameras (PStr "B") jpeg] /\
  (total (sleeps (io w)) == 1 # 2)%Q /\
  (now w == 2)%Q.
Proof. vm_compute. repeat split; reflexivity. Qed.

(** max_retries 3, failures at attempts 1 and 2, success at attempt 3:
    three captures, 1 + 2 = 3 s of backoff. *)
Example success_at_third_attempt :
  let r := capture_frame_with_retry third_time_lucky (one_camera 3) (PStr "rtsp://a")
             (fresh_world 0) in
  fst r = Ok (Some jpeg) /\
  captures (io (snd r)) = 3%nat /\
  (total (sleeps (io (snd r))) == 3)%Q.
Proof. vm_compute. repeat split; reflexivity. Qed.

(** * Further properties *)

(** ** What the client does, and what clears the flag *)

Lemma follows_refl P w : follows P w w.
Proof.
  split.
  - exists []. now rewrite app_nil_r.
  - exists []. now rewrite app_nil_r, andb_true_r.
Qed.

Lemma follows_trans P w1 w2 w3 :
  follows P w1 w2 -> follows P w2 w3 -> follows P w1 w3.
Proof.
  intros ((e1 & I1 & F1) & (s1 & H1 & R1)) ((e2 & I2 & F2) & (s2 & H2 & R2)).
  split.
  - exists (e1 ++ e2). split.
    + now rewrite I2, I1, app_assoc.
    + apply Forall_app. now split.
  - exists (s1 ++ s2). split.
    + now rewrite H2, H1, app_assoc.
    + rewrite R2, R1, <- andb_assoc. f_equal.
      destruct s1; destruct s2; reflexivity.
Qed.

Lemma follows_log P l m w : follows P w (record_log l m w).
Proof.
  split.
  - exists []. simpl. now rewrite app_nil_r.
  - exists []. simpl. now rewrite app_nil_r, andb_true_r.
Qed.

Lemma follows_weaken (P Q : event -> Prop) w w' :
  (forall e, P e -> Q e) -> follows P w w' -> follows Q w w'.
Proof.
  intros H ((evs & I & F) & S). split; [|exact S].
  exists evs. split; [exact I|]. eapply Forall_impl; [exact H|exact F].
Qed.

(** A blocking call: one event, then the handlers of the signals that came. *)
Lemma follows_blocking P e d sigs (count : World -> World) w :
  P e ->
  io (count (emit e w)) = io w ++ [e] ->
  handled (count (emit e w)) = handled w ->
  running (count (emit e w)) = running w ->
  follows P w (deliver sigs (advance d (count (emit e w)))).
Proof.
  intros He Hio Hh Hr. split.
  - exists [e]. rewrite deliver_io. simpl. split; [exact Hio|]. now constructor.
  - exists (map (fun s => (s, now (advance d (count (emit e w))))) sigs).
    rewrite deliver_handled, deliver_running. simpl. rewrite Hh, Hr.
    split; [reflexivity|]. destruct sigs; reflexivity.
Qed.

Lemma keeps_ret {A} P (a : A) : keeps P (ret a).
Proof. intro w. apply follows_refl. Qed.

Lemma keeps_raise {A} P e : keeps P (@raise A e).
Proof. intro w. apply follows_refl. Qed.

Lemma keeps_lift {A} P (r : Result A) : keeps P (lift_result r).
Proof. intro w. apply follows_refl. Qed.

Lemma keeps_log P l m : keeps P (log l m).
Proof. intro w. apply follows_log. Qed.

Lemma keeps_bind {A B} P (m : M A) (k : A -> M B) :
  keeps P m -> (forall a, keeps P (k a)) -> keeps P (bind m k).
Proof.
  intros Hm Hk w. unfold bind. specialize (Hm w).
  destruct (m w) as [[a|e] w1]; simpl in Hm.
  - eapply follows_trans; [exact Hm|apply Hk].
  - exact Hm.
Qed.

Lemma keeps_try {A} P (m : M A) (h : exn -> M A) :
  keeps P m -> (forall e, keeps P (h e)) -> keeps P (try_except m h).
Proof.
  intros Hm Hh w. unfold try_except. specialize (Hm w).
  destruct (m w) as [[a|e] w1]; simpl in Hm.
  - exact Hm.
  - eapply follows_trans; [exact Hm|apply Hh].
Qed.

Lemma keeps_subprocess_run P env cmd t :
  P (SubprocessRun cmd t) -> keeps P (subprocess_run env cmd t).
Proof. intros H w. unfold subprocess_run. simpl. now apply follows_blocking. Qed.

Lemma keeps_requests_post P env url headers body t :
  P (Post url headers body t) -> keeps P (requests_post env url headers body t).
Proof. intros H w. unfold requests_post. simpl. now apply follows_blocking. Qed.

Lemma keeps_time_sleep P env d :
  P (Sleep d) -> keeps P (time_sleep env d).
Proof. intros H w. unfold time_sleep. simpl. now apply follows_blocking. Qed.

(** Structural proof of [keeps] for a computation made of the pieces above. *)
Ltac keeps_step :=
  first
    [ apply keeps_bind; [|intro]
    | apply keeps_try; [|intro]
    | apply keeps_log
    | apply keeps_ret
    | apply keeps_raise
    | apply keeps_lift
    | match goal with
      | |- keeps _ (if ?b then _ else _) => destruct b
      | |- keeps _ (match ?x with _ => _ end) => destruct x
      end ].

Lemma keeps_capture_frame P env url :
  P (capture url) -> keeps P (capture_frame env url).
Proof.
  intros H. unfold capture_frame, decode.
  apply keeps_try; [|intro e; destruct e; repeat keeps_step].
  apply keeps_bind; [apply keeps_subprocess_run; exact H|intro r].
  repeat keeps_step.
Qed.

Lemma keeps_retry_loop P env cfg url :
  P (capture url) ->
  forall attempts,
    (forall a, In a attempts -> P (Sleep (inject_Z (2 ^ a)))) ->
    keeps P (retry_loop env cfg attempts url).
Proof.
  intros H. induction attempts as [|a rest IH]; intros Hs.
  - apply keeps_ret.
  - cbn [retry_loop].
    apply keeps_bind; [apply keeps_capture_frame; exact H|intros [f|]].
    + apply keeps_ret.
    + apply keeps_bind; [|intros _; apply IH; intros b Hb; apply Hs; now right].
      destruct (a <? max_retries cfg - 1); [|apply keeps_ret].
      apply keeps_bind; [apply keeps_log|intros _].
      apply keeps_time_sleep. apply Hs. now left.
Qed.

Lemma range_nonneg n a : In a (range n) -> 0 <= a.
Proof.
  unfold range. rewrite in_map_iff. intros (k & <- & _). lia.
Qed.

Lemma keeps_capture_frame_with_retry P env cfg url :
  P (capture url) ->
  (forall a, 0 <= a -> P (Sleep (inject_Z (2 ^ a)))) ->
  keeps P (capture_frame_with_retry env cfg url).
Proof.
  intros H Hs. unfold capture_frame_with_retry.
  apply keeps_bind.
  - apply keeps_retry_loop; [exact H|]. intros a Ha. apply Hs. eapply range_nonneg; eauto.
  - intros [f|]; repeat keeps_step.
Qed.

Lemma keeps_send_frame P env cfg cam frame :
  P (detect_request cfg cam frame) -> keeps P (send_frame env cfg cam frame).
Proof.
  intros H. unfold send_frame, response_json.
  apply keeps_try; [|intro e; destruct e; repeat keeps_step].
  apply keeps_bind; [apply keeps_requests_post; exact H|intro r].
  repeat keeps_step.
Qed.

Lemma keeps_report_error P env cfg cam msg :
  P (health_request cfg cam msg) -> keeps P (report_error env cfg cam msg).
Proof.
  intros H. unfold report_error.
  apply keeps_try; [|intro e; repeat keeps_step].
  apply keeps_bind; [apply keeps_requests_post; exact H|intro r].
  repeat keeps_step.
Qed.

(** ** The shape of every retry *)

Lemma acquired_nonempty o f : acquired o = Some f -> f <> [].
Proof.
  unfold acquired. destruct o as [cp|e]; [|discriminate].
  destruct (returncode cp =? 0); simpl; [|discriminate].
  destruct (stdout cp) as [|b l]; simpl; [discriminate|].
  intros H. injection H as <-. discriminate.
Qed.

Lemma acquired_from_run o f :
  acquired o = Some f -> exists cp, o = Ok cp /\ returncode cp = 0 /\ stdout cp = f.
Proof.
  unfold acquired. destruct o as [cp|e]; [|discriminate].
  destruct (returncode cp =? 0) eqn:E; simpl; [|discriminate].
  destruct (List.length (stdout cp) =? 0)%nat; simpl; [discriminate|].
  intros H. injection H as <-. exists cp. apply Z.eqb_eq in E. auto.
Qed.

(** Among the next [n] runs of the capture tool, either all fail or there
    is a first one that works. *)
Lemma first_success env b :
  forall n,
    (forall j, (j < n)%nat -> fails env (b + j)) \/
    (exists k f, (k < n)%nat /\ (forall j, (j < k)%nat -> fails env (b + j)) /\
                 acquired (outcome (on_run env (b + k))) = Some f).
Proof.
  induction n as [|n [IH|(k & f & Hk & Hf & Hs)]].
  - left. intros j Hj. lia.
  - destruct (acquired (outcome (on_run env (b + n)))) as [f|] eqn:E.
    + right. exists n, f. auto.
    + left. intros j Hj. destruct (Nat.eq_dec j n) as [->|Hne]; [exact E|].
      apply IH. lia.
  - right. exists k, f. auto.
Qed.

Lemma capture_frame_with_retry_shape env cfg url w :
  1 <= max_retries cfg ->
  let N := Z.to_nat (max_retries cfg) in
  let r := capture_frame_with_retry env cfg url w in
  exists k,
    (1 <= k <= N)%nat /\
    (forall j, (j < k - 1)%nat -> fails env (n_run w + j)) /\
    fst r = Ok (acquired (outcome (on_run env (n_run w + (k - 1))))) /\
    (fst r = Ok None -> k = N) /\
    io (snd r) = io w ++ flat_map (failed_attempt url) (seq 0 (k - 1)) ++ [capture url] /\
    n_run (snd r) = (n_run w + k)%nat /\
    n_sleep (snd r) = (n_sleep w + (k - 1))%nat.
Proof.
  intros HN N r.
  assert (HN1 : (1 <= N)%nat) by (subst N; lia).
  destruct (first_success env (n_run w) N) as [Hall|(k & f & Hk & Hf & Hs)].
  - destruct (capture_frame_with_retry_exhausted env cfg url w HN Hall)
      as (evs & R & Hio & -> & _ & _ & Hr & Hsl).
    exists N. fold N in Hio, Hr, Hsl. fold r in R, Hio, Hr, Hsl.
    repeat split; try assumption; try lia.
    + intros j Hj. apply Hall. lia.
    + rewrite R. f_equal. symmetry. apply Hall. lia.
  - destruct (capture_frame_with_retry_succeeds env cfg url w (S k) f)
      as (evs & R & Hio & -> & _ & _ & Hr & Hsl).
    { fold N. lia. }
    { intros j Hj. apply Hf. lia. }
    { replace (S k - 1)%nat with k by lia. exact Hs. }
    exists (S k). fold r in R, Hio, Hr, Hsl.
    repeat split; try assumption; try lia.
    + intros j Hj. apply Hf. lia.
    + rewrite R. f_equal. replace (S k - 1)%nat with k by lia. now rewrite Hs.
    + rewrite R. discriminate.
Qed.

Lemma total_snoc l x : (total (l ++ [x]) == total l + x)%Q.
Proof.
  induction l as [|y l IH]; simpl; [lra|]. rewrite IH. lra.
Qed.

(** 1 + 2 + ... + 2^(k-1) = 2^k - 1 *)
Lemma total_backoff k :
  (total (map (fun i => inject_Z (2 ^ Z.of_nat i)) (seq 0 k)) ==
   inject_Z (2 ^ Z.of_nat k - 1))%Q.
Proof.
  induction k as [|k IH]; [reflexivity|].
  rewrite seq_S, map_app. cbn [map]. rewrite total_snoc, IH. cbn [Nat.add].
  rewrite Nat2Z.inj_succ, Z.pow_succ_r by lia.
  rewrite <- inject_Z_plus.
  replace (2 * 2 ^ Z.of_nat k - 1) with (2 ^ Z.of_nat k - 1 + 2 ^ Z.of_nat k) by lia.
  reflexivity.
Qed.

(** X1.  Whatever the capture tool does, with max_retries = N >= 1 a call
    of capture_frame_with_retry consists of k - 1 failed attempts, each
    followed by its backoff sleep, and one last attempt, for some k between
    1 and N: the first k - 1 runs of the tool in the call all failed, and
    the call ends with the k-th.  It sleeps 2^(k-1) - 1 seconds in all, at
    most 2^(N-1) - 1.  Its result is what the k-th run amounts to: None
    exactly when k = N and the N-th attempt failed too; a frame it returns
    is the non-empty output of the k-th run, which ended with return
    code 0. *)
Theorem every_retry_has_one_shape env cfg url w :
  1 <= max_retries cfg ->
  let N := Z.to_nat (max_retries cfg) in
  let r := capture_frame_with_retry env cfg url w in
  exists k evs,
    (1 <= k <= N)%nat /\
    io (snd r) = io w ++ evs /\
    evs = flat_map (failed_attempt url) (seq 0 (k - 1)) ++ [capture url] /\
    captures evs = k /\
    (forall j, (j < k - 1)%nat -> fails env (n_run w + j)) /\
    fst r = Ok (acquired (outcome (on_run env (n_run w + (k - 1))))) /\
    (total (sleeps evs) == inject_Z (2 ^ Z.of_nat (k - 1) - 1))%Q /\
    (total (sleeps evs) <= inject_Z (2 ^ Z.of_nat (N - 1) - 1))%Q /\
    (fst r = Ok None <-> k = N /\ fails env (n_run w + (N - 1))) /\
    (forall f, fst r = Ok (Some f) ->
       f <> [] /\
       exists cp, outcome (on_run env (n_run w + (k - 1))) = Ok cp /\
                  returncode cp = 0 /\ stdout cp = f).
Proof.
  intros HN N r.
  destruct (capture_frame_with_retry_shape env cfg url w HN)
    as (k & Hk & Hf & R & Hnone & Hio & _).
  fold N in Hk, Hnone. fold r in R, Hnone, Hio.
  exists k, (flat_map (failed_attempt url) (seq 0 (k - 1)) ++ [capture url]).
  assert (T : (total (sleeps (flat_map (failed_attempt url) (seq 0 (k - 1)) ++ [capture url]))
               == inject_Z (2 ^ Z.of_nat (k - 1) - 1))%Q).
  { rewrite sleeps_app, sleeps_failed. simpl. rewrite app_nil_r. apply total_backoff. }
  split; [exact Hk|]. split; [exact Hio|]. split; [reflexivity|].
  split; [|split; [exact Hf|split; [exact R|split; [exact T|split; [|split]]]]].
  - rewrite captures_app, captures_failed. unfold captures. simpl. lia.
  - rewrite T. rewrite <- Zle_Qle.
    assert (2 ^ Z.of_nat (k - 1) <= 2 ^ Z.of_nat (N - 1)) by (apply Z.pow_le_mono_r; lia).
    lia.
  - split.
    + intros H. pose proof (Hnone H) as ->. split; [reflexivity|].
      unfold fails. rewrite H in R. now injection R as <-.
    + intros (-> & H). rewrite R. unfold fails in H. now rewrite H.
  - intros f H. rewrite H in R. injection R as R. symmetry in R.
    split; [exact (acquired_nonempty _ _ R)|exact (acquired_from_run _ _ R)].
Qed.

Lemma every_retry_has_one_shape_witness :
  exists k evs,
    (1 <= k <= 5)%nat /\
    io (snd (capture_frame_with_retry third_time_lucky (one_camera 5) (PStr "rtsp://a")
               (fresh_world 0))) = evs.
Proof.
  destruct (every_retry_has_one_shape third_time_lucky (one_camera 5) (PStr "rtsp://a")
              (fresh_world 0))
    as (k & evs & Hk & Hio & _).
  - simpl. lia.
  - exists k, evs. split; [exact Hk|exact Hio].
Defined.

(** ** One request per source *)

Lemma captured_frame_nonempty env cfg url w f :
  fst (capture_frame_with_retry env cfg url w) = Ok (Some f) -> f <> [].
Proof.
  intros H. destruct (Z_le_gt_dec (max_retries cfg) 0) as [H0|H0].
  - destruct (capture_frame_with_retry_empty env cfg url w H0) as (R & _).
    rewrite R in H. discriminate.
  - destruct (capture_frame_with_retry_shape env cfg url w) as (k & _ & _ & R & _); [lia|].
    rewrite H in R. injection R as R. symmetry in R. exact (acquired_nonempty _ _ R).
Qed.

Lemma captures_bound env cfg url w :
  exists evs,
    io (snd (capture_frame_with_retry env cfg url w)) = io w ++ evs /\
    posts evs = [] /\
    (captures evs <= Z.to_nat (max_retries cfg))%nat.
Proof.
  destruct (Z_le_gt_dec (max_retries cfg) 0) as [H0|H0].
  - destruct (capture_frame_with_retry_empty env cfg url w H0) as (_ & Hio & _).
    exists []. rewrite Hio, app_nil_r. repeat split. apply Nat.le_0_l.
  - destruct (capture_frame_with_retry_shape env cfg url w)
      as (k & Hk & _ & _ & _ & Hio & _); [lia|].
    exists (flat_map (failed_attempt url) (seq 0 (k - 1)) ++ [capture url]).
    split; [exact Hio|]. split.
    + rewrite posts_app.
      assert (P0 : forall n a, posts (flat_map (failed_attempt url) (seq a n)) = []).
      { induction n as [|n IH]; intro a; simpl; [reflexivity|]. apply IH. }
      rewrite P0. reflexivity.
    + rewrite captures_app, captures_failed. unfold captures. simpl. lia.
Qed.

Lemma process_camera_one_request env cfg c w :
  let r1 := capture_frame_with_retry env cfg (rtsp_url c) (entering c w) in
  exists evs,
    io (snd (process_camera env cfg c w)) = io w ++ evs /\
    (captures evs <= Z.to_nat (max_retries cfg))%nat /\
    ((fst r1 = Ok None /\
      posts evs = [health_request cfg (camera_id c) (capture_failure c)]) \/
     (exists f, fst r1 = Ok (Some f) /\ f <> [] /\
                posts evs = [detect_request cfg (camera_id c) f])).
Proof.
  intros r1.
  destruct (captures_bound env cfg (rtsp_url c) (entering c w)) as (evs & Hio & Hp & Hc).
  fold r1 in Hio. cbn [io entering record_log] in Hio.
  destruct (capture_frame_with_retry_inv env cfg (rtsp_url c) (entering c w))
    as ((res & Hres) & _).
  fold r1 in Hres. destruct res as [f|].
  - destruct (process_camera_captured env cfg c w f Hres) as (_ & Pio & _).
    fold r1 in Pio.
    exists (evs ++ [detect_request cfg (camera_id c) f]).
    rewrite Pio, Hio, <- app_assoc, captures_app, posts_app, Hp.
    split; [reflexivity|]. split; [unfold captures at 2; simpl; lia|].
    right. exists f. repeat split; try assumption.
    exact (captured_frame_nonempty env cfg _ _ f Hres).
  - destruct (process_camera_failed env cfg c w Hres) as (_ & Pio & _).
    fold r1 in Pio.
    exists (evs ++ [health_request cfg (camera_id c) (capture_failure c)]).
    rewrite Pio, Hio, <- app_assoc, captures_app, posts_app, Hp.
    split; [reflexivity|]. split; [unfold captures at 2; simpl; lia|].
    left. split; [assumption|reflexivity].
Qed.

(** X2.  Processing a source always ends in exactly one HTTP request.
    If every one of the max_retries runs of the capture tool fails (or
    max_retries is not positive), the request is the health report with
    the source's identifier and the failure message.  Otherwise the request
    is the detection request with the source's identifier and, as frame,
    the output of the first run of the tool that worked, which is not
    empty; the tool is not run again after it. *)
Theorem every_source_ends_in_one_request env cfg c w :
  let N := Z.to_nat (max_retries cfg) in
  exists evs,
    io (snd (process_camera env cfg c w)) = io w ++ evs /\
    ((forall j, (j < N)%nat -> fails env (n_run w + j)) /\
     captures evs = N /\
     posts evs = [health_request cfg (camera_id c) (capture_failure c)]
     \/
     exists k cp,
       (k < N)%nat /\
       (forall j, (j < k)%nat -> fails env (n_run w + j)) /\
       outcome (on_run env (n_run w + k)) = Ok cp /\
       returncode cp = 0 /\ stdout cp <> [] /\
       captures evs = S k /\
       posts evs = [detect_request cfg (camera_id c) (stdout cp)]).
Proof.
  intros N.
  destruct (first_success env (n_run w) N) as [Hall|(k & f & Hk & Hf & Hs)].
  - assert (R : fst (capture_frame_with_retry env cfg (rtsp_url c) (entering c w)) = Ok None).
    { apply capture_frame_with_retry_none. exact Hall. }
    destruct (process_camera_failed env cfg c w R) as (_ & Pio & _).
    assert (E : exists evs,
               io (snd (capture_frame_with_retry env cfg (rtsp_url c) (entering c w))) =
               io w ++ evs /\ captures evs = N /\ posts evs = []).
    { destruct (Z_le_gt_dec (max_retries cfg) 0) as [H0|H0].
      - destruct (capture_frame_with_retry_empty env cfg (rtsp_url c) (entering c w) H0)
          as (_ & Hio & _).
        exists []. rewrite Hio, app_nil_r. repeat split. subst N. unfold captures. simpl. lia.
      - destruct (capture_frame_with_retry_exhausted env cfg (rtsp_url c) (entering c w))
          as (evs & _ & Hio & Hevs & Hc & _); [lia|exact Hall|].
        exists evs. split; [exact Hio|]. split; [exact Hc|].
        destruct (capture_frame_with_retry_inv env cfg (rtsp_url c) (entering c w))
          as (_ & (evs' & Hio' & Hp) & _).
        rewrite Hio in Hio'. apply app_inv_head in Hio'. now subst evs'. }
    destruct E as (evs & Hio & Hc & Hp).
    exists (evs ++ [health_request cfg (camera_id c) (capture_failure c)]).
    split; [rewrite Pio, Hio, <- app_assoc; reflexivity|].
    left. split; [exact Hall|].
    rewrite captures_app, posts_app, Hc, Hp. unfold captures at 1. simpl.
    split; [lia|reflexivity].
  - destruct (capture_frame_with_retry_succeeds env cfg (rtsp_url c) (entering c w) (S k) f)
      as (evs & R & Hio & Hevs & Hc & _).
    { fold N. lia. }
    { intros j Hj. apply Hf. lia. }
    { replace (S k - 1)%nat with k by lia. exact Hs. }
    destruct (process_camera_captured env cfg c w f R) as (_ & Pio & _).
    destruct (capture_frame_with_retry_inv env cfg (rtsp_url c) (entering c w))
      as (_ & (evs' & Hio' & Hp) & _).
    rewrite Hio in Hio'. apply app_inv_head in Hio'. subst evs'.
    destruct (acquired_from_run _ _ Hs) as (cp & Ho & Hrc & Hout).
    exists (evs ++ [detect_request cfg (camera_id c) f]).
    split; [rewrite Pio, Hio, <- app_assoc; reflexivity|].
    right. exists k, cp.
    rewrite captures_app, posts_app, Hc, Hp, Hout. unfold captures at 1. simpl.
    repeat split; try assumption; try lia.
    subst f. exact (acquired_nonempty _ _ Hs).
Qed.

(** ** The sources served in a pass *)

Lemma process_camera_request_for env cfg c w :
  exists evs,
    io (snd (process_camera env cfg c w)) = io w ++ evs /\
    map post_camera (posts evs) = [Some (camera_id c)].
Proof.
  destruct (process_camera_one_request env cfg c w) as (evs & Hio & _ & H).
  exists evs. split; [exact Hio|].
  destruct H as [(_ & ->)|(f & _ & _ & ->)]; reflexivity.
Qed.

(** X3.  In one pass over the configured sources the client makes exactly
    one HTTP request for each source of a prefix of the list, in the
    configured order, and none for the others.  The prefix is the whole
    list when no signal arrives, and it is empty when the flag is already
    cleared. *)
Theorem pass_serves_a_prefix_in_order env cfg :
  forall cs w,
  exists n evs,
    (n <= List.length cs)%nat /\
    io (snd (for_cameras env cfg cs w)) = io w ++ evs /\
    map post_camera (posts evs) = map (fun c => Some (camera_id c)) (firstn n cs) /\
    (quiet env -> running w = true -> n = List.length cs) /\
    (running w = false -> n = 0%nat).
Proof.
  induction cs as [|c rest IH]; intros w.
  - exists 0%nat, []. simpl. rewrite app_nil_r. repeat split; auto.
  - destruct (running w) eqn:Hrun.
    + rewrite for_cameras_step by exact Hrun.
      destruct (process_camera_request_for env cfg c w) as (e1 & Hio1 & Hp1).
      destruct (IH (snd (process_camera env cfg c w)))
        as (n & e2 & Hn & Hio2 & Hp2 & Hq & _).
      exists (S n), (e1 ++ e2). simpl.
      rewrite Hio2, Hio1, <- app_assoc, posts_app, map_app, Hp1, Hp2.
      repeat split; try reflexivity; try lia; try discriminate.
      intros Q _. f_equal. apply Hq; [exact Q|].
      destruct (process_camera_inv env cfg c w) as (_ & _ & Pq). now rewrite (Pq Q).
    + rewrite for_cameras_stopped by exact Hrun.
      exists 0%nat, []. simpl. rewrite app_nil_r.
      repeat split; auto; try lia; discriminate.
Qed.

(** ** Every event of a run *)

Lemma keeps_time_time P : keeps P time_time.
Proof. intro w. apply follows_refl. Qed.

Lemma keeps_get_running P : keeps P get_running.
Proof. intro w. apply follows_refl. Qed.

Lemma allowed_incl cfg cs cs' e :
  incl cs cs' -> allowed cfg cs e -> allowed cfg cs' e.
Proof.
  intros H [(c & Hc & E)|[(c & f & Hc & Hf & E)|[(c & Hc & E)|(d & Hd & E)]]].
  - left. exists c. auto.
  - right. left. exists c, f. auto.
  - right. right. left. exists c. auto.
  - right. right. right. exists d. auto.
Qed.

Lemma backoff_positive a : 0 <= a -> (0 < inject_Z (2 ^ a))%Q.
Proof.
  intros H. change 0%Q with (inject_Z 0). rewrite <- Zlt_Qlt.
  apply Z.pow_pos_nonneg; lia.
Qed.

Lemma follows_process_camera env cfg c w :
  follows (allowed cfg [c]) w (snd (process_camera env cfg c w)).
Proof.
  set (P := allowed cfg [c]).
  assert (Hin : In c [c]) by now left.
  assert (K1 : keeps P (capture_frame_with_retry env cfg (rtsp_url c))).
  { apply keeps_capture_frame_with_retry.
    - left. exists c. auto.
    - intros a Ha. right. right. right. eexists. split; [|reflexivity].
      apply backoff_positive. exact Ha. }
  rewrite process_camera_unfold.
  pose proof (K1 (entering c w)) as F1.
  pose proof (captured_frame_nonempty env cfg (rtsp_url c) (entering c w)) as Hne.
  destruct (capture_frame_with_retry env cfg (rtsp_url c) (entering c w))
    as [[[f|]|e] w1]; simpl in F1, Hne.
  - assert (K2 : keeps P (send_frame env cfg (camera_id c) f)).
    { apply keeps_send_frame. right. left. exists c, f. auto. }
    pose proof (K2 (record_log INFO (captured_log c f) w1)) as F2.
    destruct (send_frame env cfg (camera_id c) f (record_log INFO (captured_log c f) w1))
      as [[[v|]|e] w3]; simpl in F2 |- *;
      (eapply follows_trans; [apply follows_log|]);
      (eapply follows_trans; [exact F1|]);
      (eapply follows_trans; [apply follows_log|]);
      exact F2.
  - eapply follows_trans; [apply follows_log|].
    eapply follows_trans; [exact F1|].
    eapply follows_trans; [apply follows_log|].
    apply keeps_report_error. right. right. left. exists c. auto.
  - eapply follows_trans; [apply follows_log|exact F1].
Qed.

Lemma keeps_for_cameras env cfg all :
  forall cs, incl cs all -> keeps (allowed cfg all) (for_cameras env cfg cs).
Proof.
  induction cs as [|c rest IH]; intros Hin.
  - apply keeps_ret.
  - cbn [for_cameras]. apply keeps_bind; [apply keeps_get_running|intros r].
    destruct (negb r); [apply keeps_ret|].
    apply keeps_bind.
    + intro w. eapply follows_weaken; [|apply follows_process_camera].
      intros e. apply allowed_incl. intros x [<-|[]]. apply Hin. now left.
    + intros _. apply IH. intros x Hx. apply Hin. now right.
Qed.

Lemma keeps_finish_cycle env cfg all t0 :
  keeps (allowed cfg all) (finish_cycle env cfg t0).
Proof.
  unfold finish_cycle.
  apply keeps_bind; [apply keeps_time_time|intros t].
  apply keeps_bind; [apply keeps_get_running|intros r].
  destruct (Qltb 0 (max0 (interval cfg - (t - t0)))) eqn:E; simpl; [|apply keeps_ret].
  destruct r; simpl; [|apply keeps_ret].
  apply keeps_bind; [apply keeps_log|intros _].
  apply keeps_time_sleep. right. right. right. eexists. split; [|reflexivity].
  apply Qltb_lt. exact E.
Qed.

Lemma keeps_cycle env cfg :
  keeps (allowed cfg (cameras cfg)) (cycle env cfg).
Proof.
  unfold cycle.
  apply keeps_bind; [apply keeps_time_time|intros t].
  apply keeps_bind; [apply keeps_for_cameras; apply incl_refl|intros _].
  apply keeps_finish_cycle.
Qed.

Lemma keeps_while_running env cfg :
  forall fuel, keeps (allowed cfg (cameras cfg)) (while_running env cfg fuel).
Proof.
  induction fuel as [|k IH]; [apply keeps_ret|].
  cbn [while_running]. apply keeps_bind; [apply keeps_get_running|intros r].
  destruct r; [|apply keeps_ret].
  apply keeps_bind; [apply keeps_cycle|intros _; exact IH].
Qed.

(** From the construction of the client to the end of run(). *)
Lemma follows_client env cfg w fuel :
  let booted := deliver (on_boot env) (assign_running false w) in
  let r := client env cfg w fuel in
  follows (allowed cfg (cameras cfg)) (entering_loop cfg booted) (snd r) /\
  io (entering_loop cfg booted) = io w /\
  handled (entering_loop cfg booted) = handled booted /\
  (fst r = Ok true -> running (snd r) = false).
Proof.
  intros booted r.
  assert (Hio : io (entering_loop cfg booted) = io w).
  { subst booted. simpl. now rewrite deliver_io. }
  assert (Hh : handled (entering_loop cfg booted) = handled booted) by reflexivity.
  split; [|split; [exact Hio|split; [exact Hh|]]].
  - subst r. unfold client. fold booted. rewrite run_eq.
    pose proof (keeps_while_running env cfg fuel (entering_loop cfg booted)) as F.
    destruct (while_running env cfg fuel (entering_loop cfg booted)) as [[[|]|e] w2];
      simpl in F |- *; exact F.
  - subst r. unfold client. fold booted. rewrite run_eq.
    pose proof (while_running_left env cfg fuel (entering_loop cfg booted)) as L.
    destruct (while_running env cfg fuel (entering_loop cfg booted)) as [[[|]|e] w2];
      simpl in L |- *; try discriminate.
    intros _. apply L. reflexivity.
Qed.

(** X4.  Whatever the capture tool, the API and the signals do, everything
    a client does from its construction on, for any number of passes, is
    one of: a run of ffmpeg on the address of a configured camera with a
    10 s timeout; a detection request to {api_url}/api/vision/detect with
    the API key, the identifier of a configured camera, a non-empty frame
    and a 30 s timeout; a health report to
    {api_url}/api/vision/health/report with the API key, the identifier of
    a configured camera and a 10 s timeout; a sleep of positive length. *)
Theorem client_only_does_what_is_configured env cfg w fuel :
  exists evs,
    io (snd (client env cfg w fuel)) = io w ++ evs /\
    Forall (allowed cfg (cameras cfg)) evs.
Proof.
  destruct (follows_client env cfg w fuel) as (((evs & Hio & HF) & _) & Hw & _).
  exists evs. rewrite <- Hw. split; assumption.
Qed.




(** ** What main checks, and what can end a running client *)






(** ** A signal during the sleep between two passes *)

(** X6.  If a shutdown signal arrives during the sleep between two passes,
    the sleep is still completed, so that the pass ends a full interval
    after it began, and run() then leaves its loop without another pass. *)
Theorem signal_in_cycle_sleep_ends_run env cfg w0 fuel :
  let w1 := snd (for_cameras env cfg (cameras cfg) w0) in
  let w2 := snd (cycle env cfg w0) in
  running w1 = true ->
  (now w1 - now w0 < interval cfg)%Q ->
  no_signal (on_sleep env (n_sleep w1)) = false ->
  io w2 = io w1 ++ [Sleep (interval cfg - (now w1 - now w0))] /\
  (now w2 - now w0 == interval cfg)%Q /\
  running w2 = false /\
  while_running env cfg (S fuel) w2 = (Ok true, w2).
Proof.
  intros w1 w2 H1 HP Hsig.
  destruct (finish_cycle_cases env cfg (now w0) w1) as (_ & Hpos & _).
  assert (E2 : w2 = snd (finish_cycle env cfg (now w0) w1)).
  { subst w2. now rewrite cycle_eq. }
  rewrite <- E2 in Hpos.
  destruct (Hpos H1) as (Hio & Hnow & Hrun); [lra|].
  rewrite Hsig in Hrun.
  split; [exact Hio|]. split; [rewrite Hnow; lra|]. split; [exact Hrun|].
  apply while_running_stopped. exact Hrun.
Qed.

Lemma signal_in_cycle_sleep_ends_run_witness :
  fst (while_running sigterm_in_cycle_sleep (one_camera 5) 2
         (assign_running true (fresh_world 0))) = Ok true /\
  captures (io (snd (while_running sigterm_in_cycle_sleep (one_camera 5) 2
                       (assign_running true (fresh_world 0))))) = 1%nat.
Proof.
  destruct (signal_in_cycle_sleep_ends_run sigterm_in_cycle_sleep (one_camera 5)
              (assign_running true (fresh_world 0)) 0) as (_ & _ & _ & H).
  - vm_compute. reflexivity.
  - vm_compute. reflexivity.
  - vm_compute. reflexivity.
  - rewrite while_running_step by reflexivity. rewrite H. vm_compute. auto.
Defined.

(** ** What send_frame and report_error return *)

Lemma send_frame_detection env cfg cam frame w :
  fst (send_frame env cfg cam frame w) = Ok (detection (outcome (on_post env (n_post w)))).
Proof.
  unfold send_frame, try_except, bind, requests_post, response_json, lift_result,
    dict_get, py_len, detection, sized.
  destruct (outcome (on_post env (n_post w))) as [resp|e]; simpl.
  - destruct (status_code resp =? 401) eqn:E1.
    { apply Z.eqb_eq in E1. rewrite E1. reflexivity. }
    destruct (status_code resp =? 404) eqn:E2.
    { apply Z.eqb_eq in E2. rewrite E2. reflexivity. }
    case_split; reflexivity.
  - destruct e; reflexivity.
Qed.

(** X7.  send_frame returns a result exactly when the API answers with
    status 200 and a JSON object whose "objects" member, if there is one,
    has a length; the result is that object.  So a 200 answer that is not
    JSON, is not an object, or has "objects" set to null or to a number
    counts as a failed detection. *)
Theorem send_frame_succeeds_only_on_200_object env cfg cam frame w v :
  fst (send_frame env cfg cam frame w) = Ok (Some v) <->
  exists resp d,
    outcome (on_post env (n_post w)) = Ok resp /\
    status_code resp = 200 /\
    json resp = Some v /\
    v = PDict d /\
    sized (match assoc "objects" d with Some x => x | None => PList [] end) = true.
Proof.
  rewrite send_frame_detection. unfold detection. split.
  - destruct (outcome (on_post env (n_post w))) as [resp|e]; [|discriminate].
    destruct (status_code resp =? 200) eqn:Es; [|discriminate].
    destruct (json resp) as [[| | | | | |d]|] eqn:Ej; try discriminate.
    destruct (sized _) eqn:Ez; [|discriminate].
    intros H. injection H as <-. exists resp, d. apply Z.eqb_eq in Es. auto.
  - intros (resp & d & -> & Hs & Hj & -> & Hz).
    rewrite Hs, Hj, Hz. reflexivity.
Qed.

(** X8.  report_error is best effort: whatever the health endpoint answers
    or raises, it returns normally after exactly one request, without
    retrying, sleeping or running the capture tool. *)
Theorem report_error_is_best_effort env cfg cam msg w :
  fst (report_error env cfg cam msg w) = Ok tt /\
  io (snd (report_error env cfg cam msg w)) = io w ++ [health_request cfg cam msg] /\
  n_post (snd (report_error env cfg cam msg w)) = S (n_post w) /\
  n_run (snd (report_error env cfg cam msg w)) = n_run w /\
  n_sleep (snd (report_error env cfg cam msg w)) = n_sleep w.
Proof.
  destruct (report_error_world env cfg cam msg w) as (R & Hio & Hr & Hp & Hs & _).
  repeat split; assumption.
Qed.

(** ** max_retries <= 0 *)

(** X9.  With max_retries zero or negative (accepted by main) a pass without
    signals never runs the capture tool: it reports every configured
    source as failed, one health report each, in order. *)
Theorem no_retries_reports_every_source env cfg :
  max_retries cfg <= 0 ->
  quiet env ->
  forall cs w,
    running w = true ->
    io (snd (for_cameras env cfg cs w)) =
    io w ++ map (fun c => health_request cfg (camera_id c) (capture_failure c)) cs.
Proof.
  intros HN Q. induction cs as [|c rest IH]; intros w Hrun.
  - simpl. now rewrite app_nil_r.
  - rewrite for_cameras_step by exact Hrun.
    destruct (capture_frame_with_retry_empty env cfg (rtsp_url c) (entering c w) HN)
      as (R & Hio & _).
    destruct (process_camera_failed env cfg c w R) as (_ & Pio & _).
    destruct (process_camera_inv env cfg c w) as (_ & _ & Pq).
    rewrite IH by (rewrite (Pq Q); exact Hrun).
    rewrite Pio, Hio. simpl. now rewrite <- app_assoc.
Qed.

Lemma no_retries_reports_every_source_witness :
  io (snd (for_cameras steady (one_camera 0) [camA; camB]
             (assign_running true (fresh_world 0)))) =
  [health_request (one_camera 0) (PStr "A") (capture_failure camA);
   health_request (one_camera 0) (PStr "B") (capture_failure camB)].
Proof.
  apply (no_retries_reports_every_source steady (one_camera 0)).
  - simpl. lia.
  - intro n. repeat split.
  - reflexivity.
Defined.

(** ** Where main takes the cameras from *)

Lemma split1_joined sep i u :
  contains sep i = false ->
  split1 sep (i ++ String sep u)%string = [i; u].
Proof.
  induction i as [|a rest IH]; simpl.
  - intros _. now rewrite Ascii.eqb_refl.
  - intros H. apply orb_false_iff in H. destruct H as (Ha & Hr).
    rewrite Ha, (IH Hr). reflexivity.
Qed.

Lemma parse_cameras_pairs :
  forall pairs acc w,
    (forall p, In p pairs -> contains ":" (fst p) = false) ->
    parse_cameras (map cli_spec pairs) acc w =
    (Ok (inr (acc ++ map cli_camera pairs)), w).
Proof.
  induction pairs as [|p rest IH]; intros acc w H.
  - simpl. now rewrite app_nil_r.
  - cbn [map parse_cameras]. unfold cli_spec at 1.
    change (fst p ++ ":" ++ snd p)%string with (fst p ++ String ":" (snd p))%string.
    rewrite split1_joined by (apply H; now left).
    rewrite IH by (intros q Hq; apply H; now right).
    rewrite <- app_assoc. reflexivity.
Qed.

(** X10.  --camera arguments are split at their first colon: with an API
    address and key given, no --config, and every argument of the form
    id:url with no colon in id (the url may contain colons, as rtsp://
    addresses do), main starts the scheduler with exactly these cameras, in
    the order given, without names, with the API address stripped of its
    trailing slashes, and with the interval and max_retries as given. *)
Theorem main_accepts_cli_cameras host args w url key pairs :
  arg_api_url args = Some url -> given (Some url) = true ->
  arg_api_key args = Some key -> given (Some key) = true ->
  given (arg_config args) = false ->
  arg_cameras args = Some (map cli_spec pairs) ->
  pairs <> [] ->
  (forall p, In p pairs -> contains ":" (fst p) = false) ->
  main host args w =
  (Ok (Scheduler {| api_url := rstrip "/" url; api_key := key;
                    cameras := map cli_camera pairs;
                    interval := arg_interval args;
                    max_retries := arg_max_retries args |}), w).
Proof.
  intros Hu Gu Hk Gk Hc Hcs Hne Hids.
  unfold main. rewrite Hu, Gu, Hk, Gk, Hc, Hcs. cbn [negb].
  destruct pairs as [|p rest]; [contradiction|].
  cbn [nonempty map]. unfold bind.
  change (cli_spec p :: map cli_spec rest) with (map cli_spec (p :: rest)).
  rewrite parse_cameras_pairs by exact Hids. reflexivity.
Qed.

Lemma main_accepts_cli_cameras_witness :
  fst (main no_files two_cli_cameras (fresh_world 0)) =
  Ok (Scheduler
        {| api_url := "https://api.example.com"; api_key := "YOUR_KEY";
           cameras := [{| camera_id := PStr "cam1";
                          rtsp_url := PStr "rtsp://192.168.1.100:554/stream";
                          name := PNone |};
                       {| camera_id := PStr "cam2"; rtsp_url := PStr "rtsp://10.0.0.2/live";
                          name := PNone |}];
           interval := 2; max_retries := 5 |}).
Proof.
  rewrite (main_accepts_cli_cameras no_files two_cli_cameras (fresh_world 0)
             "https://api.example.com//" "YOUR_KEY"
             [("cam1", "rtsp://192.168.1.100:554/stream"); ("cam2", "rtsp://10.0.0.2/live")]);
    try reflexivity.
  - discriminate.
  - intros p [<-|[<-|[]]]; reflexivity.
Defined.

(** X11.  The origins of the cameras have a fixed precedence.  When --config
    is given, neither the --camera arguments nor the CAMERAS variable have
    any influence on what main does; when it is not given and there are
    --camera arguments, neither the files nor CAMERAS have any. *)
Theorem camera_origins_have_precedence host host' args args' w :
  arg_api_url args' = arg_api_url args ->
  arg_api_key args' = arg_api_key args ->
  arg_config args' = arg_config args ->
  arg_interval args' = arg_interval args ->
  arg_max_retries args' = arg_max_retries args ->
  (given (arg_config args) = true ->
   (forall path, arg_config args = Some path -> json_file host' path = json_file host path) ->
   main host' args' w = main host args w) /\
  (given (arg_config args) = false ->
   nonempty (arg_cameras args) = true ->
   arg_cameras args' = arg_cameras args ->
   main host' args' w = main host args w).
Proof.
  intros Eu Ek Ec Ei Er. split.
  - intros Hc Hf. unfold main. rewrite Eu, Ek, Ec, Ei, Er, Hc.
    destruct (arg_config args) as [path|]; [|discriminate].
    unfold load_cameras_from_file. rewrite (Hf path eq_refl). reflexivity.
  - intros Hc Hn Ecs. unfold main. rewrite Eu, Ek, Ec, Ei, Er, Ecs, Hc, Hn. reflexivity.
Qed.

Lemma camera_origins_have_precedence_witness :
  main no_files
    {| arg_api_url := Some "https://api.example.com"; arg_api_key := Some "YOUR_KEY";
       arg_config := Some "cameras.json"; arg_cameras := None;
       arg_interval := 2; arg_max_retries := 5; arg_verbose := false |}
    (fresh_world 0) =
  main no_files config_file_args (fresh_world 0).
Proof.
  apply (proj1 (camera_origins_have_precedence no_files no_files config_file_args
                  {| arg_api_url := Some "https://api.example.com";
                     arg_api_key := Some "YOUR_KEY";
                     arg_config := Some "cameras.json"; arg_cameras := None;
                     arg_interval := 2; arg_max_retries := 5; arg_verbose := false |}
                  (fresh_world 0) eq_refl eq_refl eq_refl eq_refl eq_refl)).
  - reflexivity.
  - intros path _. reflexivity.
Defined.

(** ** Loading cameras from JSON *)

Lemma camera_of_well_formed v :
  well_formed_entry v = true -> camera_of v = Ok (entry_camera v).
Proof.
  unfold well_formed_entry, camera_of, entry_camera, subscript, dict_get.
  destruct v; try discriminate.
  destruct (assoc "camera_id" d); [|discriminate].
  destruct (assoc "rtsp_url" d); [|discriminate].
  intros _. destruct (assoc "name" d); reflexivity.
Qed.

Lemma collect_well_formed :
  forall items acc,
    forallb well_formed_entry items = true ->
    collect items acc = Ok (acc ++ map entry_camera items).
Proof.
  induction items as [|v rest IH]; intros acc H; simpl.
  - now rewrite app_nil_r.
  - simpl in H. apply andb_true_iff in H. destruct H as (Hv & Hr).
    rewrite (camera_of_well_formed v Hv), (IH _ Hr), <- app_assoc. reflexivity.
Qed.

Lemma forallb_false {A} (f : A -> bool) l :
  forallb f l = false -> exists x, In x l /\ f x = false.
Proof.
  induction l as [|a l IH]; simpl; [discriminate|].
  destruct (f a) eqn:E; simpl.
  - intros H. destruct (IH H) as (x & Hx & Hf). exists x. auto.
  - intros _. exists a. auto.
Qed.

(** X12.  load_cameras_from_file on a file that holds a JSON object: if the
    object has no "cameras" member the result is the empty list; if
    "cameras" is a list whose entries all are objects with "camera_id" and
    "rtsp_url", the result has one camera per entry, in the order of the
    file, with the values of the entry and with name None where the entry
    has none; if some entry lacks one of the two, the whole load raises
    and no camera is returned. *)
Theorem load_cameras_from_file_all_or_nothing host path d :
  json_file host path = Ok (PDict d) ->
  (assoc "cameras" d = None -> load_cameras_from_file host path = Ok []) /\
  (forall items,
     assoc "cameras" d = Some (PList items) ->
     (forallb well_formed_entry items = true ->
      load_cameras_from_file host path = Ok (map entry_camera items)) /\
     (forallb well_formed_entry items = false ->
      exists e, load_cameras_from_file host path = Raise e)).
Proof.
  intros Hf. unfold load_cameras_from_file, dict_get. rewrite Hf. split.
  - intros ->. reflexivity.
  - intros items ->. simpl. split.
    + intros H. apply (collect_well_formed items [] H).
    + intros H. destruct (forallb_false _ _ H) as (v & Hin & Hv).
      apply (collect_malformed v Hv items [] Hin).
Qed.

Lemma load_cameras_from_file_all_or_nothing_witness :
  load_cameras_from_file one_file "cameras.json" =
  Ok [{| camera_id := PStr "door"; rtsp_url := PStr "rtsp://10.0.0.3/live";
         name := PStr "Front door" |};
      {| camera_id := PStr "yard"; rtsp_url := PStr "rtsp://10.0.0.4/live";
         name := PNone |}].
Proof.
  destruct (load_cameras_from_file_all_or_nothing one_file "cameras.json"
              [("cameras", PList [door_entry; yard_entry])] eq_refl) as (_ & H).
  destruct (H [door_entry; yard_entry] eq_refl) as (Hok & _).
  rewrite Hok; reflexivity.
Defined.

(** ** How main ends *)




Lemma rstrip_spec c s :
  exists n, s = (rstrip c s ++ repeated c n)%string /\ ends_with c (rstrip c s) = false.
Proof.
  induction s as [|a rest (n & Hs & He)].
  - exists 0%nat. split; reflexivity.
  - cbn [rstrip]. destruct (rstrip c rest) as [|k ks] eqn:Er.
    + destruct (Ascii.eqb a c) eqn:Ea.
      * apply Ascii.eqb_eq in Ea. subst a. exists (S n). simpl in *. now rewrite Hs at 1.
      * exists n. simpl in *. split; [now rewrite Hs at 1|].
        exact Ea.
    + exists n. split.
      * simpl in *. now rewrite Hs at 1.
      * exact He.
Qed.

(** X14.  When main starts the scheduler, the configuration it built has at
    least one camera, a non-empty API key, the interval and max_retries of
    the arguments unchanged (whatever their sign), and as API address the
    address given without its trailing slashes: it does not end in a
    slash, so that the endpoint paths are joined to it by one slash. *)
Theorem main_starts_with_a_checked_configuration host args w c :
  fst (main host args w) = Ok (Scheduler c) ->
  cameras c <> [] /\
  (exists url n,
     arg_api_url args = Some url /\ url <> EmptyString /\
     url = (api_url c ++ repeated "/" n)%string /\
     ends_with "/" (api_url c) = false) /\
  arg_api_key args = Some (api_key c) /\ api_key c <> EmptyString /\
  interval c = arg_interval args /\
  max_retries c = arg_max_retries args.
Proof.
  unfold main.
  destruct (arg_api_url args) as [url|] eqn:Hu; [|discriminate].
  destruct (given (Some url)) eqn:Gu; [|discriminate].
  destruct (arg_api_key args) as [key|] eqn:Hk; [|discriminate].
  destruct (given (Some key)) eqn:Gk; [|discriminate].
  cbn [negb]. unfold bind at 1.
  match goal with
  | |- context [match ?m w with _ => _ end] => destruct (m w) as [[[st|[|cam cs]]|e] w1]
  end; simpl; try discriminate.
  intros H. injection H as <-. simpl.
  destruct (rstrip_spec "/" url) as (n & Hs & He).
  split; [discriminate|]. split; [|split; [reflexivity|split; [|split; reflexivity]]].
  - exists url, n. repeat split; try assumption.
    intros ->. discriminate Gu.
  - intros ->. discriminate Gk.
Qed.

Lemma main_starts_with_a_checked_configuration_witness :
  exists n, "https://api.example.com//" =
            ("https://api.example.com" ++ repeated "/" n)%string.
Proof.
  destruct (main_starts_with_a_checked_configuration no_files two_cli_cameras (fresh_world 0)
              {| api_url := "https://api.example.com"; api_key := "YOUR_KEY";
                 cameras := [{| camera_id := PStr "cam1";
                                rtsp_url := PStr "rtsp://192.168.1.100:554/stream";
                                name := PNone |};
                             {| camera_id := PStr "cam2";
                                rtsp_url := PStr "rtsp://10.0.0.2/live";
                                name := PNone |}];
                 interval := 2; max_retries := 5 |})
    as (_ & (url & n & Hu & _ & Hs & _) & _).
  - reflexivity.
  - exists n. injection Hu as <-. exact Hs.
Defined.
